(** * velox/common/memory/Memory.cpp: allocators, pool tree and size classes

    A shallow embedding of [Memory.cpp] and the properties of it that the
    design document states.  Unsigned 64-bit values ([size_t], [uint64_t])
    are integers in [0, 2^64) whose arithmetic wraps; pointers are integer
    addresses with [0] for [nullptr]. *)

From Stdlib Require Import ZArith Lia List.
From Stdlib.Strings Require Import Byte.
From stdpp Require Import base option list gmap strings.

Local Open Scope Z_scope.

(** ** Machine integers *)

(** [size_t] / [unsigned long long] arithmetic: results are reduced modulo
    [2^64]. *)
Definition wrap64 (z : Z) : Z := z mod 2 ^ 64.

(** [int64_t] values, and the two's complement reading of a product that
    leaves the range. *)
Definition in_int64 (z : Z) : Prop := - 2 ^ 63 <= z < 2 ^ 63.

Definition wrap_int64 (z : Z) : Z := (z + 2 ^ 63) mod 2 ^ 64 - 2 ^ 63.

Definition SIZE_MAX : Z := 2 ^ 64 - 1.

Module bits.

(** Scan the bits [n-1], [n-2], ..., [0] of [word] and count the zero
    bits met before the first one bit. *)
Fixpoint clz_scan (n : nat) (word : Z) : Z :=
  match n with
  | O => 0
  | S k => if Z.testbit word (Z.of_nat k) then 0 else 1 + clz_scan k word
  end.

(** Modelled from the spec: [bits::countLeadingZeros] of [BitUtil.h],
    which is not part of the sources at hand.  The design document reads
    [1 << (63 - countLeadingZeros(size))] as the largest power of two not
    above [size], which is the count of leading zero bits of a 64-bit
    word. *)
Definition countLeadingZeros (word : Z) : Z := clz_scan 64 word.

End bits.

(** The size-class rule in the words of the design document, over
    unbounded integers: [lower] is the largest power of two not above
    [requested], and [lower * 1.5] is [lower + lower / 2]. *)
Definition preferredSize_spec (requested : Z) : Z :=
  if requested <? 8 then 8
  else
    let lower := 2 ^ Z.log2 requested in
    if requested =? lower then requested
    else if 2 * requested <=? 3 * lower then lower + lower / 2
         else lower * 2.

Definition is_power_of_two (z : Z) : Prop := exists k, 0 <= k /\ z = 2 ^ k.

(** ** Failures, outcomes and the state-and-failure monad *)

(** The two kinds of raised failure that the design document names: an
    invariant violation (a failed check) and an unsupported-operation
    signal; each carries the text given at the place it is raised. *)
Inductive failure : Type :=
| InvariantViolation (check : string)
| UnsupportedOperation (message : string).

(** What a call does to a state of type [S]: it returns a value, it raises
    a failure (the state reached so far stays observable), or it has no
    defined behaviour (a handle that designates no live object). *)
Inductive outcome (S A : Type) : Type :=
| Returned (a : A) (s : S)
| Raised (e : failure) (s : S)
| Undefined.

Arguments Returned {S A} a s.
Arguments Raised {S A} e s.
Arguments Undefined {S A}.

Definition M (S A : Type) : Type := S -> outcome S A.

Definition ret {S A : Type} (a : A) : M S A := fun s => Returned a s.

Definition bind {S A B : Type} (m : M S A) (k : A -> M S B) : M S B :=
  fun s =>
    match m s with
    | Returned a s' => k a s'
    | Raised e s' => Raised e s'
    | Undefined => Undefined
    end.

Definition raise {S A : Type} (e : failure) : M S A := fun s => Raised e s.

Definition gets {S A : Type} (f : S -> A) : M S A := fun s => Returned (f s) s.

Definition modify {S : Type} (f : S -> S) : M S unit := fun s => Returned tt (f s).

Notation "x <- c1 ;; c2" := (bind c1 (fun x => c2))
  (at level 100, c1 at next level, right associativity).
Notation "c1 ;; c2" := (bind c1 (fun _ => c2))
  (at level 100, right associativity).

(** Modelled from the spec: the macro [VELOX_CHECK] comes from a header
    that is not part of the sources at hand.  A check whose condition is
    false raises an invariant violation that identifies the check; a check
    whose condition is true does nothing. *)
Definition VELOX_CHECK {S : Type} (condition : bool) (text : string) : M S unit :=
  if condition then ret tt else raise (InvariantViolation text).

(** Modelled from the spec: the macro [VELOX_UNSUPPORTED] comes from a
    header that is not part of the sources at hand.  It raises the
    unsupported-operation failure with the given message and does not
    return. *)
Definition VELOX_UNSUPPORTED {S A : Type} (message : string) : M S A :=
  raise (UnsupportedOperation message).

(** ** Process memory and the allocation services underneath *)

Definition nullptr : Z := 0.

(** A call that crosses the boundary to the mapped-memory manager or to the
    platform allocator, with its arguments and, for an allocation, the
    pointer that came back. *)
Inductive Call : Type :=
| allocateBytes_call (size result : Z)
| freeBytes_call (p size : Z)
| malloc_call (size result : Z)
| aligned_alloc_call (alignment size result : Z)
| free_call (p : Z).

(** The world the allocators act on.  [memory] is the byte at every
    address.  [replies] is what the allocation services underneath will
    answer, in order ([nullptr] for a failed allocation; nothing left also
    means failure): every behaviour of the services is one such sequence.
    [calls] records the calls made to them, oldest first. *)
Record World : Type := {
  memory : Z -> byte;
  replies : list Z;
  calls : list Call
}.

Definition next_reply (w : World) : Z := List.hd nullptr (replies w).

Definition answered (c : Call) (w : World) : World :=
  {| memory := memory w; replies := List.tl (replies w); calls := calls w ++ [c] |}.

Definition logged (c : Call) (w : World) : World :=
  {| memory := memory w; replies := replies w; calls := calls w ++ [c] |}.

Definition with_memory (m : Z -> byte) (w : World) : World :=
  {| memory := m; replies := replies w; calls := calls w |}.

(** [std::memcpy(dst, src, n)] and [std::memset(dst, c, n)]; [n] is a
    [size_t]. *)
Definition memcpy (dst src n : Z) : M World unit :=
  modify (fun w =>
    with_memory (fun a => if (dst <=? a) && (a <? dst + n)
                          then memory w (src + (a - dst)) else memory w a) w).

Definition memset (dst : Z) (c : byte) (n : Z) : M World unit :=
  modify (fun w =>
    with_memory (fun a => if (dst <=? a) && (a <? dst + n) then c else memory w a) w).

(** The mapped-memory manager, an external collaborator. *)
Module MappedMemory.

(** Modelled from the spec: [MappedMemory::allocateBytes] is not part of
    the sources at hand; the design document gives it as
    [allocateBytes(size) -> pointer-or-null]. *)
Definition allocateBytes (size : Z) : M World Z :=
  fun w => let r := next_reply w in Returned r (answered (allocateBytes_call size r) w).

(** Modelled from the spec: [MappedMemory::freeBytes] is not part of the
    sources at hand; the design document gives it as
    [freeBytes(pointer, size) -> void]. *)
Definition freeBytes (p size : Z) : M World unit :=
  modify (logged (freeBytes_call p size)).

End MappedMemory.

(** The platform allocator family, as far as this file calls it. *)
Module std.

Definition malloc (size : Z) : M World Z :=
  fun w => let r := next_reply w in Returned r (answered (malloc_call size r) w).

Definition aligned_alloc (alignment size : Z) : M World Z :=
  fun w => let r := next_reply w in
           Returned r (answered (aligned_alloc_call alignment size r) w).

Definition free (p : Z) : M World unit := modify (logged (free_call p)).

End std.

(** ** [MmapMemoryAllocator] *)

Module MmapMemoryAllocator.

Definition alloc (size : Z) : M World Z := MappedMemory.allocateBytes size.

Definition free (p size : Z) : M World unit :=
  if p =? nullptr then ret tt else MappedMemory.freeBytes p size.

Definition allocZeroFilled (numMembers sizeEach : Z) : M World Z :=
  let totalBytes := wrap_int64 (numMembers * sizeEach) in
  allocResult <- alloc totalBytes ;;
  (if negb (allocResult =? nullptr)
   then memset allocResult x00 (wrap64 totalBytes)
   else ret tt) ;;
  ret allocResult.

Definition allocAligned (alignment size : Z) : M World Z :=
  VELOX_UNSUPPORTED "allocAligned is not supported for MmapMemoryAllocator.".

Definition realloc (p size newSize : Z) : M World Z :=
  newAlloc <- alloc newSize ;;
  if (p =? nullptr) || (newAlloc =? nullptr) then ret newAlloc
  else
    memcpy newAlloc p (wrap64 (Z.min size newSize)) ;;
    free p size ;;
    ret newAlloc.

Definition reallocAligned (p alignment size newSize : Z) : M World Z :=
  VELOX_UNSUPPORTED "reallocAligned is not supported for MmapMemoryAllocator.".

End MmapMemoryAllocator.

(** ** [MemoryAllocator], the heap variant *)

Module MemoryAllocator.

Definition alloc (size : Z) : M World Z := std.malloc size.

Definition allocAligned (alignment size : Z) : M World Z :=
  std.aligned_alloc alignment size.

Definition reallocAligned (p alignment size newSize : Z) : M World Z :=
  if newSize <=? 0 then ret nullptr
  else
    block <- std.aligned_alloc alignment newSize ;;
    (if negb (block =? nullptr)
     then memcpy block p (wrap64 (Z.min size newSize)) ;; std.free p
     else ret tt) ;;
    ret block.

Definition free (p size : Z) : M World unit := std.free p.

End MemoryAllocator.

(** ** [MemoryPool]: the pool tree and the size classes *)

(** The usage tracker, an external collaborator: a root tracker or one
    derived from another. *)
Module MemoryUsageTracker.

Inductive t : Type :=
| Root
| ChildOf (parent : t).

(** Modelled from the spec: [MemoryUsageTracker::addChild] is not part of
    the sources at hand; the design document gives it as
    [addChild() -> new UsageTracker], a tracker derived from the
    receiver. *)
Definition addChild (tracker : t) : t := ChildOf tracker.

End MemoryUsageTracker.

Module MemoryPool.

(** A pool object.  [name_], [parent_] and [children_] are the members
    [Memory.cpp] reads and writes; handles to pools are positive numbers
    (addresses of live objects).  [cap_], [capped_] and
    [memoryUsageTracker_] stand for the state of the implementation
    class behind [genChild], [isMemoryCapped], [capMemoryAllocation],
    [getMemoryUsageTracker] and [setMemoryUsageTracker]. *)
Record t : Type := {
  name_ : string;
  parent_ : option positive;
  children_ : list positive;
  cap_ : Z;
  capped_ : bool;
  memoryUsageTracker_ : option MemoryUsageTracker.t
}.

Definition set_children (l : list positive) (p : t) : t :=
  {| name_ := name_ p; parent_ := parent_ p; children_ := l; cap_ := cap_ p;
     capped_ := capped_ p; memoryUsageTracker_ := memoryUsageTracker_ p |}.

Definition set_capped (b : bool) (p : t) : t :=
  {| name_ := name_ p; parent_ := parent_ p; children_ := children_ p;
     cap_ := cap_ p; capped_ := b;
     memoryUsageTracker_ := memoryUsageTracker_ p |}.

Definition set_tracker (tr : option MemoryUsageTracker.t) (p : t) : t :=
  {| name_ := name_ p; parent_ := parent_ p; children_ := children_ p;
     cap_ := cap_ p; capped_ := capped_ p; memoryUsageTracker_ := tr |}.

(** The live pool objects. *)
Abbreviation Pools := (gmap positive t).

(** Read a member of the live object [this]; undefined on a handle that
    designates no live object. *)
Definition member {A : Type} (this : positive) (f : t -> A) : M Pools A :=
  fun h => match h !! this with
           | Some self => Returned (f self) h
           | None => Undefined
           end.

Definition update (this : positive) (f : t -> t) : M Pools unit :=
  fun h => match h !! this with
           | Some self => Returned tt (<[this := f self]> h)
           | None => Undefined
           end.

(** [MemoryPool::MemoryPool(name, parent)]: a new object with a handle
    no live object has and no children; [cap] is what the implementation
    class records next to it, with the pool not capped and no tracker
    attached. *)
Definition construct (name : string) (parent : option positive) (cap : Z)
  : M Pools positive :=
  fun h =>
    let this := fresh (dom h) in
    Returned this
      (<[this := {| name_ := name; parent_ := parent; children_ := [];
                    cap_ := cap; capped_ := false;
                    memoryUsageTracker_ := None |}]> h).

Definition name (this : positive) : M Pools string := member this name_.

Definition parent (this : positive) : M Pools (option positive) :=
  member this parent_.

Definition getChildCount (this : positive) : M Pools Z :=
  member this (fun self => Z.of_nat (length (children_ self))).

(** The range-based [for] loop of [visitChildren]: [visitor] is called on
    each child in turn; a failure it raises ends the loop. *)
Fixpoint for_each {S : Type} (visitor : positive -> M S unit)
  (children : list positive) : M S unit :=
  match children with
  | [] => ret tt
  | child :: rest => visitor child ;; for_each visitor rest
  end.

(** [MemoryPool::visitChildren(visitor)].  The method is [const]: the pool
    store [h] is read for the child list of [this] and the visitor acts on
    a state [S] of its own.  (The read lock held during the loop keeps a
    visitor from adding to or removing from this child list.) *)
Definition visitChildren {S : Type} (this : positive)
  (visitor : positive -> M S unit) (h : Pools) : M S unit :=
  match h !! this with
  | Some self => for_each visitor (children_ self)
  | None => fun _ => Undefined
  end.

(** Modelled from the spec: [isMemoryCapped] is defined by the
    implementation class in Memory.h, which is not part of the sources at
    hand.  The design document gives a pool a capped flag, which this
    reads. *)
Definition isMemoryCapped (this : positive) : M Pools bool :=
  member this capped_.

(** Modelled from the spec: [capMemoryAllocation] is defined by the
    implementation class in Memory.h, which is not part of the sources at
    hand.  The design document says that capping a pool is no live link:
    it does not reach children that exist already.  So it sets the flag of
    the one pool it is called on. *)
Definition capMemoryAllocation (this : positive) : M Pools unit :=
  update this (set_capped true).

(** Modelled from the spec: [getMemoryUsageTracker] is defined by the
    implementation class in Memory.h, which is not part of the sources at
    hand; it reads the optional reference to a usage tracker. *)
Definition getMemoryUsageTracker (this : positive)
  : M Pools (option MemoryUsageTracker.t) :=
  member this memoryUsageTracker_.

(** Modelled from the spec: [setMemoryUsageTracker] is defined by the
    implementation class in Memory.h, which is not part of the sources at
    hand; it attaches a usage tracker to the pool. *)
Definition setMemoryUsageTracker (this : positive)
  (tracker : MemoryUsageTracker.t) : M Pools unit :=
  update this (set_tracker (Some tracker)).

Definition child_named (h : Pools) (name : string) (c : positive) : bool :=
  match h !! c with
  | Some p => String.eqb (name_ p) name
  | None => false
  end.

(** Modelled from the spec: [genChild] is defined by the implementation
    class in Memory.h, which is not part of the sources at hand.  The
    design document says that child names are unique within a parent and
    that creating a duplicate name fails without mutating existing state
    ([addChild] says of this call: "Upon name collision we would throw
    and not modify the map"); otherwise a new pool with the given name,
    parent and cap is constructed. *)
Definition genChild (parent : positive) (name : string) (cap : Z)
  : M Pools positive :=
  siblings <- member parent children_ ;;
  collision <- gets (fun h => existsb (child_named h name) siblings) ;;
  VELOX_CHECK (negb collision) "child name is unique within the parent" ;;
  construct name (Some parent) cap.

Definition addChild (this : positive) (name : string) (cap : Z)
  : M Pools positive :=
  child <- genChild this name cap ;;
  capped <- isMemoryCapped this ;;
  (if capped then capMemoryAllocation child else ret tt) ;;
  usageTracker <- getMemoryUsageTracker this ;;
  match usageTracker with
  | Some tracker =>
      setMemoryUsageTracker child (MemoryUsageTracker.addChild tracker)
  | None => ret tt
  end ;;
  update this (fun self => set_children (children_ self ++ [child]) self) ;;
  ret child.

Definition dropChild (this child : positive) : M Pools unit :=
  children <- member this children_ ;;
  let iter := list_find (fun e => e = child) children in
  VELOX_CHECK (bool_decide (is_Some iter)) "iter != children_.end()" ;;
  match iter with
  | Some (i, _) => update this (set_children (delete i children))
  | None => ret tt
  end.

(** [MemoryPool::~MemoryPool()], followed by the end of the object. *)
Definition destroy (this : positive) : M Pools unit :=
  children <- member this children_ ;;
  VELOX_CHECK (bool_decide (children = [])) "children_.empty()" ;;
  parent <- member this parent_ ;;
  match parent with
  | Some p => dropChild p this
  | None => ret tt
  end ;;
  modify (delete this).

Definition getPreferredSize (size : Z) : Z :=
  if size <? 8 then 8
  else
    let bits := 63 - bits.countLeadingZeros size in
    let lower := wrap64 (Z.shiftl 1 bits) in
    if lower =? size then size
    else if wrap64 (lower + lower / 2) >=? size
         then wrap64 (lower + lower / 2)
         else wrap64 (lower * 2).

End MemoryPool.

(** ** Sample states *)

(** A world whose byte at address [a] is [a mod 256], whose allocation
    services will answer [answers], and in which no call was made yet. *)
Definition sample_world (answers : list Z) : World :=
  {| memory := fun a => match Byte.of_N (Z.to_N (a mod 256)) with
                        | Some b => b
                        | None => x00
                        end;
     replies := answers;
     calls := [] |}.

(** A store with one pool, the root of a tree. *)
Definition sample_root (capped : bool) : MemoryPool.t :=
  {| MemoryPool.name_ := "root"; MemoryPool.parent_ := None;
     MemoryPool.children_ := []; MemoryPool.cap_ := 1024;
     MemoryPool.capped_ := capped;
     MemoryPool.memoryUsageTracker_ := Some MemoryUsageTracker.Root |}.

Definition sample_pools (capped : bool) : gmap positive MemoryPool.t :=
  {[ 1%positive := sample_root capped ]}.

(** The state a call leaves behind. *)
Definition state_after {S A : Type} (o : outcome S A) (otherwise : S) : S :=
  match o with
  | Returned _ s => s
  | Raised _ s => s
  | Undefined => otherwise
  end.

(** The root with one child, as [addChild] builds it. *)
Definition sample_family (capped : bool) : gmap positive MemoryPool.t :=
  state_after (MemoryPool.addChild 1%positive "scan" 64 (sample_pools capped))
              (sample_pools capped).

(** ** The shape of a pool tree *)

(** Every live pool that has a parent is listed among the children of that
    parent, which is live: how [addChild] leaves the tree and what the
    destructor relies on. *)
Definition registered (h : gmap positive MemoryPool.t) : Prop :=
  forall c pool p,
    h !! c = Some pool -> MemoryPool.parent_ pool = Some p ->
    exists ppool, h !! p = Some ppool /\ c ∈ MemoryPool.children_ ppool.

(** No child of [self] bears [name]. *)
Definition name_free (h : gmap positive MemoryPool.t) (self : MemoryPool.t)
  (name : string) : Prop :=
  existsb (MemoryPool.child_named h name) (MemoryPool.children_ self) = false.

(** The pool that [addChild] on [self] creates. *)
Definition new_child (this : positive) (self : MemoryPool.t) (name : string)
  (cap : Z) : MemoryPool.t :=
  {| MemoryPool.name_ := name; MemoryPool.parent_ := Some this;
     MemoryPool.children_ := []; MemoryPool.cap_ := cap;
     MemoryPool.capped_ := MemoryPool.capped_ self;
     MemoryPool.memoryUsageTracker_ :=
       MemoryUsageTracker.addChild <$> MemoryPool.memoryUsageTracker_ self |}.

(** ** Size classes and well-formed trees *)

(** The size classes from 8 bytes on: a power of two, or one and a half
    times a power of two. *)
Definition is_size_class (c : Z) : Prop :=
  exists k, 3 <= k /\ (c = 2 ^ k \/ c = 2 ^ k + 2 ^ k / 2).

(** Every pool listed as a child is live and names the listing pool as its
    parent. *)
Definition children_linked (h : gmap positive MemoryPool.t) : Prop :=
  forall p pool c,
    h !! p = Some pool -> c ∈ MemoryPool.children_ pool ->
    exists cp, h !! c = Some cp /\ MemoryPool.parent_ cp = Some p.

(** No pool lists a child twice. *)
Definition children_distinct (h : gmap positive MemoryPool.t) : Prop :=
  forall p pool, h !! p = Some pool -> NoDup (MemoryPool.children_ pool).

(** A well-formed pool tree: parents list their children, listed children
    are live and point back, and no child is listed twice. *)
Definition tree_ok (h : gmap positive MemoryPool.t) : Prop :=
  registered h /\ children_linked h /\ children_distinct h.

(** A visitor that notes down the children it is shown. *)
Definition note_child (child : positive) : M (list positive) unit :=
  modify (fun seen => seen ++ [child]).

(** ** Facts on the bit scan *)

Lemma testbit_top (k x : Z) :
  0 <= k -> 0 <= x < 2 ^ (k + 1) ->
  Z.testbit x k = true <-> 2 ^ k <= x.
Proof.
  intros Hk [Hx0 Hx1].
  rewrite Z.testbit_true by lia.
  assert (Hp : 0 < 2 ^ k) by (apply Z.pow_pos_nonneg; lia).
  assert (Hq : x / 2 ^ k < 2).
  { apply Z.div_lt_upper_bound; [lia|].
    replace (2 ^ (k + 1)) with (2 ^ k * 2) in Hx1; [lia|].
    rewrite Z.pow_add_r by lia. reflexivity. }
  assert (Hq0 : 0 <= x / 2 ^ k) by (apply Z.div_pos; lia).
  split; intros H.
  - assert (x / 2 ^ k = 1) by (destruct (Z.eq_dec (x / 2 ^ k) 0) as [E|E];
      [rewrite E in H; discriminate | lia]).
    pose proof (Z.mul_div_le x (2 ^ k) Hp). nia.
  - assert (1 <= x / 2 ^ k) by (apply Z.div_le_lower_bound; lia).
    replace (x / 2 ^ k) with 1 by lia. reflexivity.
Qed.

Lemma clz_scan_log2 (n : nat) (x : Z) :
  0 < x < 2 ^ Z.of_nat n ->
  bits.clz_scan n x = Z.of_nat n - 1 - Z.log2 x.
Proof.
  induction n as [|k IH]; intros [Hx0 Hx1].
  - simpl in Hx1. lia.
  - cbn [bits.clz_scan].
    assert (Hr : 0 <= x < 2 ^ (Z.of_nat k + 1)).
    { split; [lia|]. replace (Z.of_nat k + 1) with (Z.of_nat (S k)) by lia.
      exact Hx1. }
    pose proof (testbit_top (Z.of_nat k) x ltac:(lia) Hr) as Ht.
    destruct (Z.testbit x (Z.of_nat k)) eqn:E.
    + assert (Hle : 2 ^ Z.of_nat k <= x) by (apply Ht; reflexivity).
      assert (Z.log2 x = Z.of_nat k).
      { apply Z.log2_unique; [lia|]. split; [exact Hle|].
        replace (Z.succ (Z.of_nat k)) with (Z.of_nat (S k)) by lia.
        exact Hx1. }
      lia.
    + assert (Hlt : x < 2 ^ Z.of_nat k).
      { destruct (Z_lt_le_dec x (2 ^ Z.of_nat k)) as [L|L]; [exact L|].
        apply Ht in L. discriminate. }
      rewrite IH by lia. lia.
Qed.

Lemma countLeadingZeros_log2 (x : Z) :
  0 < x < 2 ^ 64 -> 63 - bits.countLeadingZeros x = Z.log2 x.
Proof.
  intros H. unfold bits.countLeadingZeros.
  rewrite (clz_scan_log2 64 x) by exact H. lia.
Qed.

(** ** The size-class rule over unbounded integers *)

Lemma pow2_double (k : Z) : 0 <= k -> 2 ^ (k + 1) = 2 * 2 ^ k.
Proof. intros Hk. rewrite Z.pow_add_r by lia. lia. Qed.

(** For [r >= 8] the largest power of two not above [r] is [2 * H] with
    [H = 2 ^ k], [k >= 2], and the rule picks among [2H], [3H] and [4H]. *)
Lemma preferredSize_spec_classes (r : Z) :
  8 <= r ->
  exists k H, 2 <= k /\ H = 2 ^ k /\ 4 <= H /\ 2 * H <= r < 4 * H /\
    Z.log2 r = k + 1 /\
    preferredSize_spec r =
      (if r =? 2 * H then r else if r <=? 3 * H then 3 * H else 4 * H).
Proof.
  intros Hr.
  destruct (Z.log2_spec r ltac:(lia)) as [Hlo Hhi].
  assert (Hk : 3 <= Z.log2 r).
  { change 3 with (Z.log2 8). apply Z.log2_le_mono. lia. }
  exists (Z.log2 r - 1), (2 ^ (Z.log2 r - 1)).
  assert (E1 : 2 ^ Z.log2 r = 2 * 2 ^ (Z.log2 r - 1)).
  { rewrite <- pow2_double by lia. f_equal. lia. }
  assert (E2 : 2 ^ Z.succ (Z.log2 r) = 4 * 2 ^ (Z.log2 r - 1)).
  { unfold Z.succ. rewrite pow2_double by lia. lia. }
  assert (H4 : 2 ^ 2 <= 2 ^ (Z.log2 r - 1)) by (apply Z.pow_le_mono_r; lia).
  change (2 ^ 2) with 4 in H4.
  repeat split; try lia.
  unfold preferredSize_spec.
  destruct (Z.ltb_spec r 8) as [?|_]; [lia|].
  cbv zeta. rewrite E1.
  replace (2 * 2 ^ (Z.log2 r - 1) / 2) with (2 ^ (Z.log2 r - 1))
    by (apply Z.div_unique_exact; lia).
  destruct (Z.eqb_spec r (2 * 2 ^ (Z.log2 r - 1))) as [?|?]; [reflexivity|].
  destruct (Z.leb_spec (2 * r) (3 * (2 * 2 ^ (Z.log2 r - 1))));
    destruct (Z.leb_spec r (3 * 2 ^ (Z.log2 r - 1))); lia.
Qed.

Lemma log2_between (k r : Z) :
  0 <= k -> 2 ^ k <= r < 2 * 2 ^ k -> Z.log2 r = k.
Proof.
  intros Hk Hr. apply Z.log2_unique; [exact Hk|].
  unfold Z.succ. rewrite pow2_double by exact Hk. exact Hr.
Qed.

Lemma preferredSize_spec_small (r : Z) : r < 8 -> preferredSize_spec r = 8.
Proof.
  intros H. unfold preferredSize_spec.
  destruct (Z.ltb_spec r 8); [reflexivity | lia].
Qed.

Lemma preferredSize_spec_lower_bound (r : Z) : r <= preferredSize_spec r.
Proof.
  destruct (Z_lt_le_dec r 8) as [Hs|Hb].
  - rewrite preferredSize_spec_small by exact Hs. lia.
  - destruct (preferredSize_spec_classes r Hb)
      as (k & H & _ & _ & _ & Hr & _ & ->).
    destruct (Z.eqb_spec r (2 * H)); [lia|].
    destruct (Z.leb_spec r (3 * H)); lia.
Qed.

Lemma preferredSize_spec_at_least_8 (r : Z) : 8 <= preferredSize_spec r.
Proof.
  destruct (Z_lt_le_dec r 8) as [Hs|Hb].
  - rewrite preferredSize_spec_small by exact Hs. lia.
  - pose proof (preferredSize_spec_lower_bound r). lia.
Qed.

Lemma preferredSize_spec_upper_bound (r : Z) :
  4 <= r -> preferredSize_spec r <= 2 * r.
Proof.
  intros H4. destruct (Z_lt_le_dec r 8) as [Hs|Hb].
  - rewrite preferredSize_spec_small by exact Hs. lia.
  - destruct (preferredSize_spec_classes r Hb)
      as (k & H & _ & _ & _ & Hr & _ & ->).
    destruct (Z.eqb_spec r (2 * H)); [lia|].
    destruct (Z.leb_spec r (3 * H)); lia.
Qed.

Lemma preferredSize_spec_power_of_two (r : Z) :
  8 <= r -> is_power_of_two r -> preferredSize_spec r = r.
Proof.
  intros Hb (j & Hj & ->).
  destruct (preferredSize_spec_classes _ Hb)
    as (k & H & Hk & -> & _ & Hr & Hl & ->).
  rewrite Z.log2_pow2 in Hl by exact Hj. subst j.
  rewrite pow2_double by lia.
  rewrite Z.eqb_refl. reflexivity.
Qed.

Lemma preferredSize_spec_idempotent (r : Z) :
  preferredSize_spec (preferredSize_spec r) = preferredSize_spec r.
Proof.
  assert (Hpow : forall j, 3 <= j -> preferredSize_spec (2 ^ j) = 2 ^ j).
  { intros j Hj. apply preferredSize_spec_power_of_two.
    - change 8 with (2 ^ 3). apply Z.pow_le_mono_r; lia.
    - exists j. split; [lia | reflexivity]. }
  destruct (Z_lt_le_dec r 8) as [Hs|Hb].
  - rewrite (preferredSize_spec_small r) by exact Hs. apply (Hpow 3). lia.
  - destruct (preferredSize_spec_classes r Hb)
      as (k & H & Hk & HH & H4 & Hr & _ & ->).
    assert (E2 : 2 * H = 2 ^ (k + 1)) by (rewrite pow2_double by lia; lia).
    assert (E4 : 4 * H = 2 ^ (k + 2)).
    { replace (k + 2) with ((k + 1) + 1) by lia.
      rewrite !pow2_double by lia. lia. }
    destruct (Z.eqb_spec r (2 * H)) as [->|Hne].
    { rewrite E2. apply Hpow. lia. }
    destruct (Z.leb_spec r (3 * H)) as [Hle|Hgt].
    + destruct (preferredSize_spec_classes (3 * H) ltac:(lia))
        as (k' & H' & Hk' & HH' & _ & Hr' & Hl' & ->).
      assert (Z.log2 (3 * H) = k + 1)
        by (apply log2_between; [lia | rewrite <- E2; lia]).
      assert (EH : H' = H) by (rewrite HH', HH; f_equal; lia).
      clear HH'. rewrite EH.
      destruct (Z.eqb_spec (3 * H) (2 * H)); [lia|].
      destruct (Z.leb_spec (3 * H) (3 * H)); [reflexivity | lia].
    + rewrite E4. apply Hpow. lia.
Qed.

Lemma preferredSize_spec_monotone (a b : Z) :
  a <= b -> preferredSize_spec a <= preferredSize_spec b.
Proof.
  intros Hab. destruct (Z_lt_le_dec a 8) as [Hs|Ha].
  - rewrite (preferredSize_spec_small a) by exact Hs.
    apply preferredSize_spec_at_least_8.
  - assert (Hb : 8 <= b) by lia.
    destruct (preferredSize_spec_classes a Ha)
      as (ka & Ga & Hka & HGa & _ & Hra & Hla & ->).
    destruct (preferredSize_spec_classes b Hb)
      as (kb & Gb & Hkb & HGb & _ & Hrb & Hlb & ->).
    assert (Hk : ka <= kb).
    { pose proof (Z.log2_le_mono a b Hab). lia. }
    destruct (Z.eq_dec ka kb) as [Heq|Hne].
    + assert (EG : Gb = Ga) by (rewrite HGa, HGb; f_equal; lia).
      clear HGb. rewrite EG in *.
      destruct (Z.eqb_spec a (2 * Ga)); destruct (Z.eqb_spec b (2 * Ga));
        destruct (Z.leb_spec a (3 * Ga)); destruct (Z.leb_spec b (3 * Ga));
        lia.
    + assert (2 * Ga <= Gb).
      { subst Ga Gb. rewrite <- pow2_double by lia.
        apply Z.pow_le_mono_r; lia. }
      destruct (Z.eqb_spec a (2 * Ga)); destruct (Z.eqb_spec b (2 * Gb));
        destruct (Z.leb_spec a (3 * Ga)); destruct (Z.leb_spec b (3 * Gb));
        lia.
Qed.

(** ** [getPreferredSize] against the rule *)

(** The shape of [getPreferredSize] on a 64-bit [size >= 8]: [lower] and
    [lower + lower / 2] never wrap, [lower * 2] may. *)
Lemma getPreferredSize_classes (size : Z) :
  8 <= size < 2 ^ 64 ->
  exists k H, 2 <= k /\ H = 2 ^ k /\ 4 <= H /\ 2 * H <= size < 4 * H /\
    MemoryPool.getPreferredSize size =
      (if size =? 2 * H then size
       else if size <=? 3 * H then 3 * H else wrap64 (4 * H)).
Proof.
  intros [Hlo Hhi].
  destruct (preferredSize_spec_classes size Hlo)
    as (k & H & Hk & HH & H4 & Hr & Hl & _).
  exists k, H. repeat split; try lia.
  unfold MemoryPool.getPreferredSize.
  destruct (Z.ltb_spec size 8) as [?|_]; [lia|].
  cbv zeta. rewrite countLeadingZeros_log2 by lia.
  rewrite Hl, Z.shiftl_1_l, pow2_double, <- HH by lia.
  assert (W2 : wrap64 (2 * H) = 2 * H) by (apply Z.mod_small; lia).
  rewrite W2.
  replace (2 * H / 2) with H by (apply Z.div_unique_exact; lia).
  replace (2 * H + H) with (3 * H) by lia.
  replace (2 * H * 2) with (4 * H) by lia.
  assert (Hk63 : k + 1 < 64).
  { apply (Z.pow_lt_mono_r_iff 2); [lia | lia |].
    rewrite pow2_double, <- HH by lia. lia. }
  assert (H62 : H <= 2 ^ 62) by (rewrite HH; apply Z.pow_le_mono_r; lia).
  assert (W3 : wrap64 (3 * H) = 3 * H) by (apply Z.mod_small; lia).
  rewrite W3, Z.geb_leb.
  destruct (Z.eqb_spec (2 * H) size); destruct (Z.eqb_spec size (2 * H));
    try lia; reflexivity.
Qed.

(** Up to [2^63 + 2^62] nothing wraps and the code computes the rule. *)
Lemma getPreferredSize_agrees (size : Z) :
  0 <= size <= 3 * 2 ^ 62 ->
  MemoryPool.getPreferredSize size = preferredSize_spec size.
Proof.
  intros [H0 Hmax]. destruct (Z_lt_le_dec size 8) as [Hs|Hb].
  - rewrite preferredSize_spec_small by exact Hs.
    unfold MemoryPool.getPreferredSize.
    destruct (Z.ltb_spec size 8); [reflexivity | lia].
  - destruct (getPreferredSize_classes size ltac:(lia))
      as (k & H & Hk & HH & H4 & Hr & ->).
    destruct (preferredSize_spec_classes size Hb)
      as (k' & H' & Hk' & HH' & _ & Hr' & Hl' & ->).
    assert (EH : H' = H).
    { rewrite HH', HH. f_equal.
      assert (Z.log2 size = k + 1)
        by (apply log2_between; [lia | rewrite pow2_double, <- HH; lia]).
      lia. }
    rewrite EH.
    destruct (Z.eqb_spec size (2 * H)); [reflexivity|].
    destruct (Z.leb_spec size (3 * H)); [reflexivity|].
    apply Z.mod_small. lia.
Qed.

(** Above [2^63 + 2^62] the product [lower * 2] is [2^64] and wraps to
    zero. *)
Lemma getPreferredSize_wraps (size : Z) :
  3 * 2 ^ 62 < size < 2 ^ 64 -> MemoryPool.getPreferredSize size = 0.
Proof.
  intros [Hlo Hhi].
  destruct (getPreferredSize_classes size ltac:(lia))
    as (k & H & Hk & HH & H4 & Hr & ->).
  assert (Hl : Z.log2 size = 63) by (apply log2_between; lia).
  assert (Hl' : Z.log2 size = k + 1)
    by (apply log2_between; [lia | rewrite pow2_double, <- HH; lia]).
  assert (k = 62) by lia. subst k.
  rewrite HH.
  destruct (Z.eqb_spec size (2 * 2 ^ 62)); [lia|].
  destruct (Z.leb_spec size (3 * 2 ^ 62)); [lia|].
  reflexivity.
Qed.

Example getPreferredSize_values :
  MemoryPool.getPreferredSize 5 = 8 /\ MemoryPool.getPreferredSize 8 = 8 /\
  MemoryPool.getPreferredSize 9 = 12 /\ MemoryPool.getPreferredSize 12 = 12 /\
  MemoryPool.getPreferredSize 13 = 16.
Proof. repeat split; reflexivity. Qed.

(** C1, at the largest [size_t]: the rule asks for [lower * 2 = 2^64],
    the next power of two, and [getPreferredSize] returns [0], because
    [lower * 2] wraps.  Up to [2^63 + 2^62] the code and the rule agree
    ([getPreferredSize_agrees]); above it the code returns [0]
    ([getPreferredSize_wraps]). *)
Theorem getPreferredSize_size_max :
  MemoryPool.getPreferredSize SIZE_MAX = 0 /\
  preferredSize_spec SIZE_MAX = 2 ^ 64 /\
  MemoryPool.getPreferredSize SIZE_MAX <> preferredSize_spec SIZE_MAX.
Proof. repeat split; vm_compute; congruence. Qed.

(** C2 as stated fails below 4: a request of 3 bytes gets the smallest
    class, 8 bytes, which is more than twice the request. *)
Lemma getPreferredSize_3_above_double :
  MemoryPool.getPreferredSize 3 = 8 /\
  ~ MemoryPool.getPreferredSize 3 <= 2 * 3.
Proof. split; [reflexivity | vm_compute; congruence]. Qed.

(** C2, amended: for every size up to [2^63 + 2^62] the preferred size is
    at least the size and, from 4 bytes on, at most twice the size; every
    64-bit power of two from 8 on is its own preferred size. *)
Theorem getPreferredSize_bounds (size : Z) :
  0 <= size < 2 ^ 64 ->
  (size <= 3 * 2 ^ 62 -> size <= MemoryPool.getPreferredSize size) /\
  (4 <= size <= 3 * 2 ^ 62 -> MemoryPool.getPreferredSize size <= 2 * size) /\
  (8 <= size -> is_power_of_two size -> MemoryPool.getPreferredSize size = size).
Proof.
  intros [H0 Hmax]. split; [|split].
  - intros Hr. rewrite getPreferredSize_agrees by lia.
    apply preferredSize_spec_lower_bound.
  - intros Hr. rewrite getPreferredSize_agrees by lia.
    apply preferredSize_spec_upper_bound. lia.
  - intros H8 Hp.
    assert (Hr : size <= 2 ^ 63).
    { destruct Hp as (j & Hj & ->).
      assert (j < 64) by (apply (Z.pow_lt_mono_r_iff 2); lia).
      apply Z.pow_le_mono_r; lia. }
    rewrite getPreferredSize_agrees by lia.
    apply preferredSize_spec_power_of_two; assumption.
Qed.

Lemma getPreferredSize_bounds_witness :
  16 <= MemoryPool.getPreferredSize 16 /\
  MemoryPool.getPreferredSize 16 <= 2 * 16 /\
  MemoryPool.getPreferredSize 16 = 16.
Proof.
  destruct (getPreferredSize_bounds 16 ltac:(lia)) as (Hl & Hu & Hp).
  split; [apply Hl; lia|]. split; [apply Hu; lia|].
  apply Hp; [lia|]. exists 4. split; [lia | reflexivity].
Defined.

(** Below the wrap the size classes are closed under rounding and ordered
    like the requests. *)
Lemma getPreferredSize_in_range (size : Z) :
  0 <= size <= 3 * 2 ^ 62 ->
  0 <= MemoryPool.getPreferredSize size <= 3 * 2 ^ 62.
Proof.
  intros Hr. rewrite getPreferredSize_agrees by exact Hr. split.
  - pose proof (preferredSize_spec_at_least_8 size). lia.
  - pose proof (preferredSize_spec_monotone size (3 * 2 ^ 62) ltac:(lia)) as Hm.
    assert (E : preferredSize_spec (3 * 2 ^ 62) = 3 * 2 ^ 62)
      by (vm_compute; reflexivity).
    lia.
Qed.

Lemma getPreferredSize_idempotent_below_wrap (size : Z) :
  0 <= size <= 3 * 2 ^ 62 ->
  MemoryPool.getPreferredSize (MemoryPool.getPreferredSize size)
  = MemoryPool.getPreferredSize size.
Proof.
  intros Hr. pose proof (getPreferredSize_in_range size Hr) as Hp.
  rewrite (getPreferredSize_agrees (MemoryPool.getPreferredSize size)) by exact Hp.
  rewrite getPreferredSize_agrees by exact Hr.
  apply preferredSize_spec_idempotent.
Qed.

Lemma getPreferredSize_monotone_below_wrap (a b : Z) :
  0 <= a -> a <= b -> b <= 3 * 2 ^ 62 ->
  MemoryPool.getPreferredSize a <= MemoryPool.getPreferredSize b.
Proof.
  intros Ha Hab Hb. rewrite !getPreferredSize_agrees by lia.
  apply preferredSize_spec_monotone. exact Hab.
Qed.

(** C10, at the largest [size_t]: rounding it gives [0] and rounding [0]
    gives [8], so rounding twice differs from rounding once; and [2^63] is
    below it yet has the larger preferred size.  Both come from the wrap of
    [lower * 2]; below it the two laws hold
    ([getPreferredSize_idempotent_below_wrap],
    [getPreferredSize_monotone_below_wrap]). *)
Theorem getPreferredSize_wrap_breaks_laws :
  MemoryPool.getPreferredSize (MemoryPool.getPreferredSize SIZE_MAX) = 8 /\
  MemoryPool.getPreferredSize SIZE_MAX = 0 /\
  2 ^ 63 <= SIZE_MAX /\
  MemoryPool.getPreferredSize (2 ^ 63) = 2 ^ 63 /\
  ~ MemoryPool.getPreferredSize (2 ^ 63) <= MemoryPool.getPreferredSize SIZE_MAX.
Proof. repeat split; vm_compute; congruence. Qed.

(** ** The allocators *)

Lemma wrap64_small (z : Z) : 0 <= z < 2 ^ 64 -> wrap64 z = z.
Proof. apply Z.mod_small. Qed.

Lemma wrap_int64_small (z : Z) : in_int64 z -> wrap_int64 z = z.
Proof.
  unfold in_int64, wrap_int64. intros H.
  rewrite Z.mod_small by lia. lia.
Qed.

Lemma min_int64 (a b : Z) : in_int64 a -> in_int64 b -> in_int64 (Z.min a b).
Proof. unfold in_int64. lia. Qed.

Ltac run := cbv [bind ret raise modify gets VELOX_CHECK VELOX_UNSUPPORTED
                 memcpy memset
                 MappedMemory.allocateBytes MappedMemory.freeBytes
                 std.malloc std.aligned_alloc std.free
                 MmapMemoryAllocator.alloc MmapMemoryAllocator.free
                 MmapMemoryAllocator.allocZeroFilled MmapMemoryAllocator.realloc
                 MmapMemoryAllocator.allocAligned
                 MmapMemoryAllocator.reallocAligned
                 MemoryAllocator.reallocAligned];
  unfold nullptr in *.

Ltac inside_range :=
  cbn;
  match goal with
  | |- context [(?d <=? ?a) && (?a <? ?e)] =>
      destruct (Z.leb_spec d a); [|lia];
      destruct (Z.ltb_spec a e); [|lia]; cbn
  end.

Ltac outside_range :=
  cbn;
  match goal with
  | |- context [(?d <=? ?a) && (?a <? ?e)] =>
      destruct (Z.leb_spec d a); destruct (Z.ltb_spec a e); cbn;
      try reflexivity; try lia
  end.

(** C3: the mapped variant's [realloc] asks the mapping manager for
    [newSize] bytes.  With a null [p], or when that allocation fails, it is
    the plain [alloc(newSize)]: same result, same world, so nothing is
    copied and nothing is freed, and a failed allocation returns null.
    Otherwise it returns the new block, whose first [min(size, newSize)]
    bytes are those of the old block, and the one further call to the
    manager is [freeBytes(p, size)]. *)
Theorem mmap_realloc_spec (p size newSize : Z) (w : World) :
  in_int64 size -> in_int64 newSize ->
  let q := next_reply w in
  let w1 := answered (allocateBytes_call newSize q) w in
  MmapMemoryAllocator.alloc newSize w = Returned q w1 /\
  (p = nullptr \/ q = nullptr ->
     MmapMemoryAllocator.realloc p size newSize w
     = MmapMemoryAllocator.alloc newSize w) /\
  (q = nullptr ->
     MmapMemoryAllocator.realloc p size newSize w = Returned nullptr w1 /\
     calls w1 = calls w ++ [allocateBytes_call newSize nullptr] /\
     memory w1 = memory w) /\
  (p <> nullptr -> q <> nullptr ->
     exists w',
       MmapMemoryAllocator.realloc p size newSize w = Returned q w' /\
       calls w' = calls w ++ [allocateBytes_call newSize q; freeBytes_call p size] /\
       replies w' = replies w1 /\
       (forall i, 0 <= i < Z.min size newSize ->
                  memory w' (q + i) = memory w (p + i)) /\
       (forall a, ~ q <= a < q + wrap64 (Z.min size newSize) ->
                  memory w' a = memory w a)).
Proof.
  intros Hs Hn q w1.
  split; [reflexivity|]. split; [|split].
  - intros Hz. run. fold q. fold w1.
    destruct (Z.eqb_spec p 0) as [?|Hp]; [reflexivity|].
    destruct (Z.eqb_spec q 0) as [?|Hq]; [reflexivity|].
    destruct Hz; contradiction.
  - intros Hq. run. fold q. rewrite Hq.
    rewrite Z.eqb_refl, orb_true_r. subst w1. rewrite Hq.
    repeat split.
  - intros Hp Hq. run. fold q.
    destruct (Z.eqb_spec p 0) as [?|_]; [contradiction|].
    destruct (Z.eqb_spec q 0) as [?|_]; [contradiction|].
    cbn [orb]. eexists. split; [reflexivity|].
    split; [cbn; rewrite <- app_assoc; reflexivity|].
    split; [reflexivity|]. split.
    + intros i Hi.
      assert (Hm : in_int64 (Z.min size newSize)) by (apply min_int64; assumption).
      unfold in_int64 in Hm.
      rewrite wrap64_small by lia.
      inside_range. f_equal. lia.
    + intros a Ha. outside_range.
Qed.

Lemma mmap_realloc_spec_witness :
  (exists w',
     MmapMemoryAllocator.realloc 100 4 8 (sample_world [200]) = Returned 200 w' /\
     calls w' = [allocateBytes_call 8 200; freeBytes_call 100 4] /\
     memory w' 203 = memory (sample_world [200]) 103) /\
  MmapMemoryAllocator.realloc 100 4 8 (sample_world [])
  = Returned nullptr (answered (allocateBytes_call 8 nullptr) (sample_world [])) /\
  MmapMemoryAllocator.realloc nullptr 4 8 (sample_world [200])
  = MmapMemoryAllocator.alloc 8 (sample_world [200]).
Proof.
  assert (H4 : in_int64 4) by (unfold in_int64; lia).
  assert (H8 : in_int64 8) by (unfold in_int64; lia).
  split; [|split].
  - destruct (mmap_realloc_spec 100 4 8 (sample_world [200]) H4 H8)
      as (_ & _ & _ & Hok).
    destruct Hok as (w' & Hr & Hc & _ & Hcopy & _);
      [unfold nullptr; cbn; lia | unfold nullptr; cbn; lia |].
    exists w'. split; [exact Hr|]. split; [exact Hc|].
    apply (Hcopy 3). lia.
  - destruct (mmap_realloc_spec 100 4 8 (sample_world []) H4 H8)
      as (_ & _ & Hfail & _).
    destruct Hfail as (Hr & _); [reflexivity | exact Hr].
  - destruct (mmap_realloc_spec nullptr 4 8 (sample_world [200]) H4 H8)
      as (_ & Hnull & _).
    apply Hnull. left. reflexivity.
Defined.

(** X18: when [count * sizeEach] is an [int64_t], the mapped variant's
    [allocZeroFilled] asks for [count * sizeEach] bytes exactly as [alloc]
    does.  When that fails it returns null in the world [alloc] leaves, no
    byte written.  When it succeeds it returns the block, every one of its
    [count * sizeEach] bytes is zero, every byte outside it is as before,
    and no further call goes to the manager. *)
Theorem mmap_allocZeroFilled_spec (numMembers sizeEach : Z) (w : World) :
  in_int64 (numMembers * sizeEach) ->
  let totalBytes := numMembers * sizeEach in
  let q := next_reply w in
  let w1 := answered (allocateBytes_call totalBytes q) w in
  MmapMemoryAllocator.alloc totalBytes w = Returned q w1 /\
  (q = nullptr ->
     MmapMemoryAllocator.allocZeroFilled numMembers sizeEach w
     = Returned nullptr w1) /\
  (q <> nullptr ->
     exists w',
       MmapMemoryAllocator.allocZeroFilled numMembers sizeEach w
       = Returned q w' /\
       calls w' = calls w1 /\ replies w' = replies w1 /\
       (forall i, 0 <= i < totalBytes -> memory w' (q + i) = x00) /\
       (forall a, ~ q <= a < q + wrap64 totalBytes ->
                  memory w' a = memory w a)).
Proof.
  intros Ht totalBytes q w1.
  split; [reflexivity|]. split.
  - intros Hq. run. rewrite wrap_int64_small by exact Ht.
    fold totalBytes. fold q. fold w1. rewrite Hq. reflexivity.
  - intros Hq. run. rewrite wrap_int64_small by exact Ht.
    fold totalBytes. fold q.
    destruct (Z.eqb_spec q 0) as [?|_]; [contradiction|].
    cbn [negb]. eexists. split; [reflexivity|].
    split; [reflexivity|]. split; [reflexivity|]. split.
    + intros i Hi. unfold in_int64 in Ht.
      rewrite wrap64_small by (fold totalBytes in Ht; lia).
      inside_range. reflexivity.
    + intros a Ha. outside_range.
Qed.

Lemma mmap_allocZeroFilled_spec_witness :
  (exists w',
     MmapMemoryAllocator.allocZeroFilled 3 4 (sample_world [200]) = Returned 200 w' /\
     memory w' 211 = x00 /\
     memory w' 212 = memory (sample_world [200]) 212) /\
  MmapMemoryAllocator.allocZeroFilled 3 4 (sample_world [])
  = Returned nullptr (answered (allocateBytes_call 12 nullptr) (sample_world [])).
Proof.
  assert (H12 : in_int64 (3 * 4)) by (unfold in_int64; lia).
  split.
  - destruct (mmap_allocZeroFilled_spec 3 4 (sample_world [200]) H12)
      as (_ & _ & Hok).
    destruct Hok as (w' & Hr & _ & _ & Hzero & Hrest);
      [unfold nullptr; cbn; lia|].
    exists w'. split; [exact Hr|]. split.
    + apply (Hzero 11). lia.
    + apply Hrest. intros [_ Hlt]. vm_compute in Hlt. discriminate.
  - destruct (mmap_allocZeroFilled_spec 3 4 (sample_world []) H12)
      as (_ & Hfail & _).
    apply Hfail. reflexivity.
Defined.

(** C5: on the mapped variant [allocAligned] and [reallocAligned] raise
    the unsupported-operation failure at every call, with a text that names
    the operation, and change nothing; that is never a returned null.  An
    allocation that fails is a returned null instead: [alloc] returns what
    the mapping manager answered, null included, and never raises. *)
Theorem mmap_aligned_unsupported
  (p alignment size newSize : Z) (w : World) :
  MmapMemoryAllocator.allocAligned alignment size w
  = Raised (UnsupportedOperation
              "allocAligned is not supported for MmapMemoryAllocator.") w /\
  MmapMemoryAllocator.reallocAligned p alignment size newSize w
  = Raised (UnsupportedOperation
              "reallocAligned is not supported for MmapMemoryAllocator.") w /\
  (forall w', MmapMemoryAllocator.allocAligned alignment size w
              <> Returned nullptr w') /\
  (forall w', MmapMemoryAllocator.reallocAligned p alignment size newSize w
              <> Returned nullptr w') /\
  MmapMemoryAllocator.alloc size w
  = Returned (next_reply w)
      (answered (allocateBytes_call size (next_reply w)) w) /\
  (forall e w', MmapMemoryAllocator.alloc size w <> Raised e w').
Proof.
  repeat split; try reflexivity; intros; discriminate.
Qed.

(** C6: the heap variant's [reallocAligned] with [newSize <= 0] returns
    null and leaves the world as it was: no call, no byte changed.  With
    [newSize > 0] it calls [aligned_alloc(alignment, newSize)]; given a
    block, it returns that block, whose first [min(size, newSize)] bytes
    are those at [p], and the one further call is [free(p)].  (Given null,
    it returns null and makes no further call.) *)
Theorem heap_reallocAligned_spec (p alignment size newSize : Z) (w : World) :
  in_int64 size -> in_int64 newSize ->
  let block := next_reply w in
  let w1 := answered (aligned_alloc_call alignment newSize block) w in
  (newSize <= 0 ->
     MemoryAllocator.reallocAligned p alignment size newSize w
     = Returned nullptr w) /\
  (0 < newSize -> block <> nullptr ->
     exists w',
       MemoryAllocator.reallocAligned p alignment size newSize w
       = Returned block w' /\
       calls w' = calls w ++ [aligned_alloc_call alignment newSize block;
                              free_call p] /\
       replies w' = replies w1 /\
       (forall i, 0 <= i < Z.min size newSize ->
                  memory w' (block + i) = memory w (p + i)) /\
       (forall a, ~ block <= a < block + wrap64 (Z.min size newSize) ->
                  memory w' a = memory w a)) /\
  (0 < newSize -> block = nullptr ->
     MemoryAllocator.reallocAligned p alignment size newSize w
     = Returned nullptr w1).
Proof.
  intros Hs Hn block w1. split; [|split].
  - intros Hle. run. destruct (Z.leb_spec newSize 0); [reflexivity | lia].
  - intros Hpos Hb. run. destruct (Z.leb_spec newSize 0); [lia|].
    fold block. destruct (Z.eqb_spec block 0) as [?|_]; [contradiction|].
    cbn [negb]. eexists. split; [reflexivity|].
    split; [cbn; rewrite <- app_assoc; reflexivity|].
    split; [reflexivity|]. split.
    + intros i Hi.
      assert (Hm : in_int64 (Z.min size newSize)) by (apply min_int64; assumption).
      unfold in_int64 in Hm.
      rewrite wrap64_small by lia.
      inside_range. f_equal. lia.
    + intros a Ha. outside_range.
  - intros Hpos Hb. run. destruct (Z.leb_spec newSize 0); [lia|].
    fold block. fold w1. rewrite Hb. reflexivity.
Qed.

Lemma heap_reallocAligned_spec_witness :
  MemoryAllocator.reallocAligned 100 16 4 0 (sample_world [208])
  = Returned nullptr (sample_world [208]) /\
  (exists w',
     MemoryAllocator.reallocAligned 100 16 4 32 (sample_world [208])
     = Returned 208 w' /\
     calls w' = [aligned_alloc_call 16 32 208; free_call 100] /\
     memory w' 210 = memory (sample_world [208]) 102) /\
  MemoryAllocator.reallocAligned 100 16 4 32 (sample_world [])
  = Returned nullptr (answered (aligned_alloc_call 16 32 nullptr) (sample_world [])).
Proof.
  assert (H4 : in_int64 4) by (unfold in_int64; lia).
  assert (H0 : in_int64 0) by (unfold in_int64; lia).
  assert (H32 : in_int64 32) by (unfold in_int64; lia).
  split; [|split].
  - destruct (heap_reallocAligned_spec 100 16 4 0 (sample_world [208]) H4 H0)
      as (Hz & _).
    apply Hz. lia.
  - destruct (heap_reallocAligned_spec 100 16 4 32 (sample_world [208]) H4 H32)
      as (_ & Hok & _).
    destruct Hok as (w' & Hr & Hc & _ & Hcopy & _);
      [lia | unfold nullptr; cbn; lia |].
    exists w'. split; [exact Hr|]. split; [exact Hc|].
    apply (Hcopy 2). lia.
  - destruct (heap_reallocAligned_spec 100 16 4 32 (sample_world []) H4 H32)
      as (_ & _ & Hfail).
    apply Hfail; [lia | reflexivity].
Defined.

(** ** The pool tree *)

Section pool_steps.

Import MemoryPool.

Variable h : gmap positive t.
Variable this : positive.
Variable self : t.
Hypothesis Hself : h !! this = Some self.

Lemma member_live {A : Type} (f : t -> A) :
  member this f h = Returned (f self) h.
Proof. unfold member. rewrite Hself. reflexivity. Qed.

Lemma update_live (f : t -> t) :
  update this f h = Returned tt (<[this := f self]> h).
Proof. unfold update. rewrite Hself. reflexivity. Qed.

Lemma fresh_not_live : h !! fresh (dom h) = None.
Proof. apply not_elem_of_dom. apply is_fresh. Qed.

Lemma fresh_not_this : fresh (dom h) <> this.
Proof.
  intros E. pose proof fresh_not_live as Hf. rewrite E, Hself in Hf.
  discriminate.
Qed.

Lemma dropChild_absent (child : positive) :
  child ∉ children_ self ->
  dropChild this child h = Raised (InvariantViolation "iter != children_.end()") h.
Proof.
  intros Hnot. unfold dropChild, bind. rewrite member_live.
  assert (E : list_find (fun e => e = child) (children_ self) = None).
  { apply list_find_None. apply Forall_forall. intros x Hx ->. auto. }
  rewrite E. reflexivity.
Qed.

Lemma dropChild_first (child : positive) (l1 l2 : list positive) :
  children_ self = l1 ++ child :: l2 -> child ∉ l1 ->
  dropChild this child h
  = Returned tt (<[this := set_children (l1 ++ l2) self]> h).
Proof.
  intros Hsplit Hnot. unfold dropChild, bind. rewrite member_live.
  assert (E : list_find (fun e => e = child) (children_ self)
              = Some (length l1, child)).
  { apply list_find_Some. rewrite Hsplit. split; [|split].
    - apply list_lookup_middle. reflexivity.
    - reflexivity.
    - intros j y Hj Hlt ->. apply Hnot.
      rewrite lookup_app_l in Hj by exact Hlt.
      eapply list_elem_of_lookup_2. exact Hj. }
  rewrite E. cbn. unfold update. rewrite Hself.
  rewrite Hsplit, delete_middle. reflexivity.
Qed.

Lemma dropChild_present (child : positive) :
  child ∈ children_ self ->
  exists l1 l2,
    children_ self = l1 ++ child :: l2 /\ (child ∉ l1) /\
    dropChild this child h
    = Returned tt (<[this := set_children (l1 ++ l2) self]> h).
Proof.
  intros Hin. destruct (list_elem_of_split_l _ _ Hin) as (l1 & l2 & Hs & Hn).
  exists l1, l2. split; [exact Hs|]. split; [exact Hn|].
  apply dropChild_first; assumption.
Qed.

Lemma destroy_with_children :
  children_ self <> [] ->
  destroy this h = Raised (InvariantViolation "children_.empty()") h.
Proof.
  intros Hne. unfold destroy, bind. rewrite member_live.
  rewrite bool_decide_eq_false_2 by exact Hne. reflexivity.
Qed.

Lemma destroy_root :
  children_ self = [] -> parent_ self = None ->
  destroy this h = Returned tt (delete this h).
Proof.
  intros He Hp. unfold destroy, bind. rewrite member_live.
  rewrite bool_decide_eq_true_2 by exact He. cbn.
  rewrite member_live, Hp. reflexivity.
Qed.

End pool_steps.

Section pool_tree.

Import MemoryPool.

Variable h : gmap positive t.
Variable this : positive.
Variable self : t.
Hypothesis Hself : h !! this = Some self.

Lemma destroy_child (p : positive) (pool : t) (l1 l2 : list positive) :
  children_ self = [] -> parent_ self = Some p ->
  h !! p = Some pool -> children_ pool = l1 ++ this :: l2 -> this ∉ l1 ->
  destroy this h
  = Returned tt (delete this (<[p := set_children (l1 ++ l2) pool]> h)).
Proof.
  intros He Hp Hpool Hsplit Hnot. unfold destroy, bind.
  rewrite (member_live h this self Hself).
  rewrite bool_decide_eq_true_2 by exact He. cbn.
  rewrite (member_live h this self Hself), Hp.
  rewrite (dropChild_first h p pool Hpool this l1 l2 Hsplit Hnot).
  reflexivity.
Qed.

Lemma genChild_collision (name : string) (cap : Z) :
  ~ name_free h self name ->
  genChild this name cap h
  = Raised (InvariantViolation "child name is unique within the parent") h.
Proof.
  intros Hc. unfold genChild, bind.
  rewrite (member_live h this self Hself). unfold gets.
  unfold name_free in Hc. apply not_false_is_true in Hc. rewrite Hc.
  reflexivity.
Qed.

Lemma addChild_collision (name : string) (cap : Z) :
  ~ name_free h self name ->
  addChild this name cap h
  = Raised (InvariantViolation "child name is unique within the parent") h.
Proof.
  intros Hc. unfold addChild, bind.
  rewrite genChild_collision by exact Hc. reflexivity.
Qed.

Lemma addChild_fresh (name : string) (cap : Z) :
  name_free h self name ->
  addChild this name cap h
  = Returned (fresh (dom h))
      (<[this := set_children (children_ self ++ [fresh (dom h)]) self]>
         (<[fresh (dom h) := new_child this self name cap]> h)).
Proof.
  intros Hfree. unfold name_free in Hfree.
  pose proof (fresh_not_this h this self Hself) as Hne.
  unfold addChild, genChild, bind.
  rewrite (member_live h this self Hself). unfold gets. rewrite Hfree.
  cbn. unfold isMemoryCapped, getMemoryUsageTracker, member.
  rewrite lookup_insert_ne, Hself by exact Hne.
  unfold new_child.
  destruct (capped_ self) eqn:Ec; destruct (memoryUsageTracker_ self) eqn:Et;
    cbn; unfold capMemoryAllocation, setMemoryUsageTracker, update, ret;
    repeat (rewrite ?lookup_insert_eq, ?insert_insert_eq;
            rewrite ?lookup_insert_ne by exact Hne);
    rewrite ?Hself, ?Et; cbn;
    repeat (rewrite ?lookup_insert_eq, ?insert_insert_eq;
            rewrite ?lookup_insert_ne by exact Hne);
    rewrite ?Hself; reflexivity.
Qed.

End pool_tree.

(** *** The tree shape is kept by [addChild] and by the destructor *)

Lemma registered_sample_pools (capped : bool) : registered (sample_pools capped).
Proof.
  intros c pool p Hc Hp. unfold sample_pools in Hc.
  apply lookup_singleton_Some in Hc as [_ <-]. discriminate.
Qed.

Lemma name_free_dec (h : gmap positive MemoryPool.t) (self : MemoryPool.t)
  (name : string) : {name_free h self name} + {~ name_free h self name}.
Proof. unfold name_free. apply bool_dec. Qed.

Lemma registered_addChild (h h' : gmap positive MemoryPool.t)
  (this child : positive) (self : MemoryPool.t) (name : string) (cap : Z) :
  registered h -> h !! this = Some self ->
  MemoryPool.addChild this name cap h = Returned child h' ->
  registered h'.
Proof.
  intros Hreg Hself Hrun.
  destruct (name_free_dec h self name) as [Ef|Ef].
  2:{ rewrite (addChild_collision h this self Hself name cap Ef) in Hrun.
      discriminate. }
  rewrite (addChild_fresh h this self Hself name cap Ef) in Hrun.
  injection Hrun as <- <-.
  pose proof (fresh_not_this h this self Hself) as Hne.
  pose proof (fresh_not_live h) as Hfresh.
  set (child := fresh (dom h)) in *.
  assert (Hkeep : forall c p ppool,
             h !! p = Some ppool -> c ∈ MemoryPool.children_ ppool ->
             exists ppool',
               <[this := MemoryPool.set_children
                           (MemoryPool.children_ self ++ [child]) self]>
                 (<[child := new_child this self name cap]> h) !! p
               = Some ppool' /\ c ∈ MemoryPool.children_ ppool').
  { intros c p ppool Hp Hin. destruct (decide (p = this)) as [->|Hpt].
    - rewrite Hself in Hp. injection Hp as <-.
      eexists. split; [apply lookup_insert_eq|]. cbn.
      apply elem_of_app. left. exact Hin.
    - assert (p <> child) by (intros ->; congruence).
      exists ppool. split; [|exact Hin].
      rewrite !lookup_insert_ne by congruence. exact Hp. }
  intros c pool p Hc Hp.
  destruct (decide (c = this)) as [->|Hct].
  - rewrite lookup_insert_eq in Hc. injection Hc as <-. cbn in Hp.
    destruct (Hreg this self p Hself Hp) as (ppool & Hpp & Hin).
    eapply Hkeep; eassumption.
  - rewrite lookup_insert_ne in Hc by congruence.
    destruct (decide (c = child)) as [->|Hcc].
    + rewrite lookup_insert_eq in Hc. injection Hc as <-. cbn in Hp.
      injection Hp as <-.
      eexists. split; [apply lookup_insert_eq|]. cbn.
      apply elem_of_app. right. apply list_elem_of_singleton. reflexivity.
    + rewrite lookup_insert_ne in Hc by congruence.
      destruct (Hreg c pool p Hc Hp) as (ppool & Hpp & Hin).
      eapply Hkeep; eassumption.
Qed.

Lemma registered_destroy (h h' : gmap positive MemoryPool.t)
  (this : positive) (self : MemoryPool.t) :
  registered h -> h !! this = Some self ->
  MemoryPool.destroy this h = Returned tt h' ->
  registered h'.
Proof.
  intros Hreg Hself Hrun.
  destruct (decide (MemoryPool.children_ self = [])) as [He|Hne].
  2:{ rewrite (destroy_with_children h this self Hself Hne) in Hrun.
      discriminate. }
  assert (Hnp : forall c pool, h !! c = Some pool ->
                               MemoryPool.parent_ pool <> Some this).
  { intros c pool Hc Hp. destruct (Hreg c pool this Hc Hp) as (pp & Hpp & Hin).
    rewrite Hself in Hpp. injection Hpp as <-. rewrite He in Hin.
    inversion Hin. }
  destruct (MemoryPool.parent_ self) as [q|] eqn:Hq.
  - destruct (Hreg this self q Hself Hq) as (qpool & Hqp & Hin).
    destruct (list_elem_of_split_l _ _ Hin) as (l1 & l2 & Hs & Hn).
    rewrite (destroy_child h this self Hself q qpool l1 l2 He Hq Hqp Hs Hn)
      in Hrun.
    injection Hrun as <-.
    assert (Hqt : q <> this) by (intros ->; exact (Hnp this self Hself Hq)).
    intros c pool p Hc Hp.
    apply lookup_delete_Some in Hc as [Hct Hc].
    assert (Hpt : p <> this).
    { intros ->. destruct (decide (c = q)) as [->|Hcq].
      - rewrite lookup_insert_eq in Hc. injection Hc as <-.
        exact (Hnp q qpool Hqp Hp).
      - rewrite lookup_insert_ne in Hc by congruence.
        exact (Hnp c pool Hc Hp). }
    assert (Hold : exists ppool, h !! p = Some ppool /\
                                 c ∈ MemoryPool.children_ ppool).
    { destruct (decide (c = q)) as [->|Hcq].
      - rewrite lookup_insert_eq in Hc. injection Hc as <-.
        exact (Hreg q qpool p Hqp Hp).
      - rewrite lookup_insert_ne in Hc by congruence.
        exact (Hreg c pool p Hc Hp). }
    destruct Hold as (ppool & Hpp & Hcin).
    rewrite lookup_delete_ne by congruence.
    destruct (decide (p = q)) as [->|Hpq].
    + rewrite Hqp in Hpp. injection Hpp as <-.
      eexists. split; [apply lookup_insert_eq|]. cbn.
      rewrite Hs in Hcin. apply elem_of_app in Hcin as [Hl|Hr].
      * apply elem_of_app. left. exact Hl.
      * apply elem_of_cons in Hr as [->|Hr]; [congruence|].
        apply elem_of_app. right. exact Hr.
    + exists ppool. split; [|exact Hcin].
      rewrite lookup_insert_ne by congruence. exact Hpp.
  - rewrite (destroy_root h this self Hself He Hq) in Hrun.
    injection Hrun as <-.
    intros c pool p Hc Hp.
    apply lookup_delete_Some in Hc as [Hct Hc].
    destruct (Hreg c pool p Hc Hp) as (ppool & Hpp & Hcin).
    exists ppool. split; [|exact Hcin].
    rewrite lookup_delete_ne; [exact Hpp|].
    intros ->. exact (Hnp c pool Hc Hp).
Qed.

(** *** Teardown *)

(** C7: destroying a pool whose child set is not empty raises the
    invariant violation of the check [children_.empty()] and changes
    nothing.  With an empty child set, in a tree where pools are listed by
    their parents, destruction returns, the pool is gone, and a parent has
    lost exactly the reference to it.  [dropChild] with a child that is not
    in the child set raises the invariant violation of its check; with a
    child that is in it, it returns and the child set has lost exactly
    that entry, the others keeping their order. *)
Theorem pool_teardown (h : gmap positive MemoryPool.t) (this : positive)
  (self : MemoryPool.t) :
  h !! this = Some self ->
  (MemoryPool.children_ self <> [] ->
     MemoryPool.destroy this h
     = Raised (InvariantViolation "children_.empty()") h) /\
  (MemoryPool.children_ self = [] -> registered h ->
     exists h',
       MemoryPool.destroy this h = Returned tt h' /\ h' !! this = None /\
       registered h' /\
       match MemoryPool.parent_ self with
       | None => h' = delete this h
       | Some p =>
           exists pool l1 l2,
             h !! p = Some pool /\
             MemoryPool.children_ pool = l1 ++ this :: l2 /\ (this ∉ l1) /\
             h' = delete this (<[p := MemoryPool.set_children (l1 ++ l2) pool]> h) /\
             h' !! p = Some (MemoryPool.set_children (l1 ++ l2) pool)
       end) /\
  (forall child, child ∉ MemoryPool.children_ self ->
     MemoryPool.dropChild this child h
     = Raised (InvariantViolation "iter != children_.end()") h) /\
  (forall child, child ∈ MemoryPool.children_ self ->
     exists l1 l2,
       MemoryPool.children_ self = l1 ++ child :: l2 /\ (child ∉ l1) /\
       MemoryPool.dropChild this child h
       = Returned tt (<[this := MemoryPool.set_children (l1 ++ l2) self]> h)).
Proof.
  intros Hself. split; [|split; [|split]].
  - apply (destroy_with_children h this self Hself).
  - intros He Hreg.
    assert (Hstep : exists h', MemoryPool.destroy this h = Returned tt h' /\
      match MemoryPool.parent_ self with
      | None => h' = delete this h
      | Some p =>
          exists pool l1 l2,
            h !! p = Some pool /\
            MemoryPool.children_ pool = l1 ++ this :: l2 /\ (this ∉ l1) /\
            h' = delete this (<[p := MemoryPool.set_children (l1 ++ l2) pool]> h) /\
            h' !! p = Some (MemoryPool.set_children (l1 ++ l2) pool)
      end).
    { destruct (MemoryPool.parent_ self) as [p|] eqn:Hp.
      - destruct (Hreg this self p Hself Hp) as (pool & Hpool & Hin).
        destruct (list_elem_of_split_l _ _ Hin) as (l1 & l2 & Hs & Hn).
        eexists. split.
        + apply (destroy_child h this self Hself p pool l1 l2); assumption.
        + exists pool, l1, l2. repeat split; try assumption.
          assert (p <> this).
          { intros ->. rewrite Hself in Hpool. injection Hpool as <-.
            rewrite He in Hin. inversion Hin. }
          rewrite lookup_delete_ne by congruence. apply lookup_insert_eq.
      - eexists. split; [apply (destroy_root h this self); assumption | reflexivity]. }
    destruct Hstep as (h' & Hrun & Hshape). exists h'.
    split; [exact Hrun|]. split.
    + destruct (MemoryPool.parent_ self) as [p|].
      * destruct Hshape as (pool & l1 & l2 & _ & _ & _ & -> & _).
        apply lookup_delete_eq.
      * rewrite Hshape. apply lookup_delete_eq.
    + split; [|exact Hshape].
      eapply registered_destroy; eassumption.
  - intros child. apply (dropChild_absent h this self Hself).
  - intros child. apply (dropChild_present h this self Hself).
Qed.

Lemma sample_family_built (capped : bool) :
  MemoryPool.addChild 1%positive "scan" 64 (sample_pools capped)
  = Returned 2%positive (sample_family capped).
Proof. destruct capped; vm_compute; reflexivity. Qed.

Lemma registered_sample_family (capped : bool) :
  registered (sample_family capped).
Proof.
  apply (registered_addChild (sample_pools capped) (sample_family capped)
           1%positive 2%positive (sample_root capped) "scan" 64).
  - apply registered_sample_pools.
  - apply lookup_singleton_eq.
  - apply sample_family_built.
Qed.

Lemma pool_teardown_witness :
  MemoryPool.destroy 1%positive (sample_family false)
  = Raised (InvariantViolation "children_.empty()") (sample_family false) /\
  (exists h',
     MemoryPool.destroy 2%positive (sample_family false) = Returned tt h' /\
     h' !! 2%positive = None /\
     h' !! 1%positive = Some (sample_root false)) /\
  MemoryPool.dropChild 1%positive 3%positive (sample_family false)
  = Raised (InvariantViolation "iter != children_.end()") (sample_family false) /\
  MemoryPool.dropChild 1%positive 2%positive (sample_family false)
  = Returned tt (<[1%positive := sample_root false]> (sample_family false)).
Proof.
  assert (H1 : sample_family false !! 1%positive
               = Some (MemoryPool.set_children [2%positive] (sample_root false)))
    by (vm_compute; reflexivity).
  assert (H2 : sample_family false !! 2%positive
               = Some (new_child 1%positive (sample_root false) "scan" 64))
    by (vm_compute; reflexivity).
  destruct (pool_teardown _ _ _ H1) as (Hfull & _ & Habsent & Hpresent).
  destruct (pool_teardown _ _ _ H2) as (_ & Hleaf & _ & _).
  split; [apply Hfull; discriminate|]. split; [|split].
  - destruct (Hleaf eq_refl (registered_sample_family false))
      as (h' & Hrun & Hgone & _ & Hshape).
    exists h'. split; [exact Hrun|]. split; [exact Hgone|].
    cbn in Hshape. destruct Hshape as (pool & l1 & l2 & Hp & Hs & Hn & _ & ->).
    rewrite H1 in Hp. injection Hp as <-. cbn in Hs.
    destruct l1 as [|x l1]; cbn in Hs.
    + injection Hs as <-. reflexivity.
    + injection Hs as _ Hs. destruct l1; discriminate.
  - apply Habsent. cbn. intros Hin. apply list_elem_of_singleton in Hin.
    discriminate.
  - destruct (Hpresent 2%positive) as (l1 & l2 & Hs & Hn & ->).
    + cbn. apply list_elem_of_singleton. reflexivity.
    + cbn in Hs. destruct l1 as [|x l1]; cbn in Hs.
      * injection Hs as <-. vm_compute. reflexivity.
      * injection Hs as _ Hs. destruct l1; discriminate.
Defined.

(** *** Creating children *)

Lemma name_taken (h : gmap positive MemoryPool.t) (self : MemoryPool.t)
  (name : string) (c : positive) (pc : MemoryPool.t) :
  c ∈ MemoryPool.children_ self -> h !! c = Some pc ->
  MemoryPool.name_ pc = name -> ~ name_free h self name.
Proof.
  intros Hin Hc Hname Hfree. unfold name_free in Hfree.
  assert (Ht : existsb (MemoryPool.child_named h name)
                 (MemoryPool.children_ self) = true).
  { apply existsb_exists. exists c. split.
    - apply list_elem_of_In. exact Hin.
    - unfold MemoryPool.child_named. rewrite Hc, Hname.
      apply String.eqb_refl. }
  congruence.
Qed.

(** C8: when a child of the pool already bears the name, [addChild]
    raises and leaves every pool, the child set included, exactly as it
    was.  And when no child bears the name, a first [addChild] returns a
    new child, the child set has grown by that one entry, and a second
    [addChild] with the same name raises and leaves that state as it is:
    a parent that had no child holds exactly one. *)
Theorem addChild_duplicate_name (h : gmap positive MemoryPool.t)
  (this : positive) (self : MemoryPool.t) (name : string) (cap cap' : Z) :
  h !! this = Some self ->
  (forall c pc,
     c ∈ MemoryPool.children_ self -> h !! c = Some pc ->
     MemoryPool.name_ pc = name ->
     exists e, MemoryPool.addChild this name cap h = Raised e h) /\
  (name_free h self name ->
     exists child h1 e,
       MemoryPool.addChild this name cap h = Returned child h1 /\
       MemoryPool.member this MemoryPool.children_ h1
       = Returned (MemoryPool.children_ self ++ [child]) h1 /\
       MemoryPool.getChildCount this h1
       = Returned (Z.of_nat (length (MemoryPool.children_ self)) + 1) h1 /\
       MemoryPool.addChild this name cap' h1 = Raised e h1).
Proof.
  intros Hself. split.
  - intros c pc Hin Hc Hname. eexists.
    apply (addChild_collision h this self Hself).
    eapply name_taken; eassumption.
  - intros Hfree.
    pose proof (fresh_not_this h this self Hself) as Hne.
    pose proof (fresh_not_live h) as Hfresh.
    set (child := fresh (dom h)) in *.
    set (self1 := MemoryPool.set_children
                    (MemoryPool.children_ self ++ [child]) self).
    set (h1 := <[this := self1]> (<[child := new_child this self name cap]> h)).
    assert (H1 : h1 !! this = Some self1) by apply lookup_insert_eq.
    assert (Hc : h1 !! child = Some (new_child this self name cap)).
    { unfold h1. rewrite lookup_insert_ne by congruence.
      apply lookup_insert_eq. }
    exists child, h1. eexists.
    split; [apply (addChild_fresh h this self Hself name cap Hfree)|].
    split; [apply (member_live h1 this self1 H1)|].
    split.
    { unfold MemoryPool.getChildCount.
      rewrite (member_live h1 this self1 H1). f_equal. cbn.
      rewrite length_app. cbn. lia. }
    apply (addChild_collision h1 this self1 H1).
    apply (name_taken h1 self1 name child (new_child this self name cap)).
    + cbn. apply elem_of_app. right. apply list_elem_of_singleton. reflexivity.
    + exact Hc.
    + reflexivity.
Qed.

Lemma addChild_duplicate_name_witness :
  (exists e,
     MemoryPool.addChild 1%positive "scan" 32 (sample_family false)
     = Raised e (sample_family false)) /\
  (exists child h1 e,
     MemoryPool.addChild 1%positive "scan" 64 (sample_pools false)
     = Returned child h1 /\
     MemoryPool.getChildCount 1%positive h1 = Returned 1 h1 /\
     MemoryPool.addChild 1%positive "scan" 32 h1 = Raised e h1).
Proof.
  split.
  - assert (H1 : sample_family false !! 1%positive
                 = Some (MemoryPool.set_children [2%positive] (sample_root false)))
      by (vm_compute; reflexivity).
    destruct (addChild_duplicate_name _ _ _ "scan" 32 32 H1) as (Hdup & _).
    apply (Hdup 2%positive (new_child 1%positive (sample_root false) "scan" 64)).
    + cbn. apply list_elem_of_singleton. reflexivity.
    + vm_compute. reflexivity.
    + reflexivity.
  - assert (H1 : sample_pools false !! 1%positive = Some (sample_root false))
      by apply lookup_singleton_eq.
    destruct (addChild_duplicate_name _ _ _ "scan" 64 32 H1) as (_ & Hnew).
    destruct (Hnew eq_refl) as (child & h1 & e & Hrun & _ & Hcount & Hagain).
    exists child, h1, e. split; [exact Hrun|]. split; [exact Hcount|].
    exact Hagain.
Defined.

(** C9: when no child bears the name, [addChild] returns a new child whose
    capped flag right after creation is the parent's flag at that moment:
    capped under a capped parent.  Capping the parent afterwards caps the
    parent and leaves the child's flag as it was at creation. *)
Theorem addChild_capped_at_creation (h : gmap positive MemoryPool.t)
  (this : positive) (self : MemoryPool.t) (name : string) (cap : Z) :
  h !! this = Some self -> name_free h self name ->
  exists child h1 h2,
    MemoryPool.addChild this name cap h = Returned child h1 /\
    child <> this /\
    MemoryPool.isMemoryCapped child h1
    = Returned (MemoryPool.capped_ self) h1 /\
    (MemoryPool.capped_ self = true ->
       MemoryPool.isMemoryCapped child h1 = Returned true h1) /\
    MemoryPool.capMemoryAllocation this h1 = Returned tt h2 /\
    MemoryPool.isMemoryCapped this h2 = Returned true h2 /\
    MemoryPool.isMemoryCapped child h2
    = Returned (MemoryPool.capped_ self) h2 /\
    h2 !! child = h1 !! child.
Proof.
  intros Hself Hfree.
  pose proof (fresh_not_this h this self Hself) as Hne.
  set (child := fresh (dom h)) in *.
  set (self1 := MemoryPool.set_children
                  (MemoryPool.children_ self ++ [child]) self).
  set (h1 := <[this := self1]> (<[child := new_child this self name cap]> h)).
  assert (H1 : h1 !! this = Some self1) by apply lookup_insert_eq.
  assert (Hc : h1 !! child = Some (new_child this self name cap)).
  { unfold h1. rewrite lookup_insert_ne by congruence. apply lookup_insert_eq. }
  set (h2 := <[this := MemoryPool.set_capped true self1]> h1).
  assert (Hc2 : h2 !! child = h1 !! child).
  { unfold h2. apply lookup_insert_ne. congruence. }
  exists child, h1, h2.
  split; [apply (addChild_fresh h this self Hself name cap Hfree)|].
  split; [exact Hne|].
  assert (Hflag : MemoryPool.isMemoryCapped child h1
                  = Returned (MemoryPool.capped_ self) h1).
  { unfold MemoryPool.isMemoryCapped, MemoryPool.member. rewrite Hc.
    reflexivity. }
  split; [exact Hflag|].
  split; [intros Ecap; rewrite Hflag, Ecap; reflexivity|].
  split; [apply (update_live h1 this self1 H1)|].
  split.
  { unfold MemoryPool.isMemoryCapped, MemoryPool.member, h2.
    rewrite lookup_insert_eq. reflexivity. }
  split; [|exact Hc2].
  unfold MemoryPool.isMemoryCapped, MemoryPool.member.
  rewrite Hc2, Hc. reflexivity.
Qed.

Lemma addChild_capped_at_creation_witness :
  (exists child h1 h2,
     MemoryPool.addChild 1%positive "scan" 64 (sample_pools true)
     = Returned child h1 /\
     MemoryPool.isMemoryCapped child h1 = Returned true h1 /\
     MemoryPool.capMemoryAllocation 1%positive h1 = Returned tt h2) /\
  (exists child h1 h2,
     MemoryPool.addChild 1%positive "scan" 64 (sample_pools false)
     = Returned child h1 /\
     MemoryPool.isMemoryCapped child h1 = Returned false h1 /\
     MemoryPool.capMemoryAllocation 1%positive h1 = Returned tt h2 /\
     MemoryPool.isMemoryCapped 1%positive h2 = Returned true h2 /\
     MemoryPool.isMemoryCapped child h2 = Returned false h2).
Proof.
  split.
  - destruct (addChild_capped_at_creation (sample_pools true) 1%positive
                (sample_root true) "scan" 64
                (lookup_singleton_eq _ _) eq_refl)
      as (child & h1 & h2 & Hrun & _ & _ & Hcapped & Hcap & _).
    exists child, h1, h2. split; [exact Hrun|].
    split; [apply Hcapped; reflexivity | exact Hcap].
  - destruct (addChild_capped_at_creation (sample_pools false) 1%positive
                (sample_root false) "scan" 64
                (lookup_singleton_eq _ _) eq_refl)
      as (child & h1 & h2 & Hrun & _ & Hflag & _ & Hcap & Hparent & Hstill & _).
    exists child, h1, h2. repeat split; assumption.
Defined.

(** A tree torn down from the leaves returns at every step and leaves no
    pool; tearing down the root while its child lives raises, and nothing
    changes. *)
Example pool_lifecycle :
  (child <- MemoryPool.addChild 1%positive "scan" 64 ;;
   grandchild <- MemoryPool.addChild child "filter" 16 ;;
   MemoryPool.destroy grandchild ;;
   MemoryPool.destroy child ;;
   MemoryPool.destroy 1%positive) (sample_pools false)
  = Returned tt ∅ /\
  (child <- MemoryPool.addChild 1%positive "scan" 64 ;;
   MemoryPool.destroy 1%positive) (sample_pools false)
  = Raised (InvariantViolation "children_.empty()") (sample_family false).
Proof. split; vm_compute; reflexivity. Qed.


(** ** More on the size classes *)

Lemma preferredSize_spec_fixes_classes (c : Z) :
  is_size_class c -> preferredSize_spec c = c.
Proof.
  intros (k & Hk & [->| ->]).
  - apply preferredSize_spec_power_of_two.
    + change 8 with (2 ^ 3). apply Z.pow_le_mono_r; lia.
    + exists k. split; [lia | reflexivity].
  - assert (E : 2 ^ k = 2 * 2 ^ (k - 1)).
    { rewrite <- pow2_double by lia. f_equal. lia. }
    assert (H4 : 2 ^ 2 <= 2 ^ (k - 1)) by (apply Z.pow_le_mono_r; lia).
    change (2 ^ 2) with 4 in H4.
    replace (2 ^ k / 2) with (2 ^ (k - 1))
      by (apply Z.div_unique_exact; lia).
    destruct (preferredSize_spec_classes (2 ^ k + 2 ^ (k - 1)) ltac:(lia))
      as (k' & H' & Hk' & HH' & _ & Hr' & Hl' & ->).
    assert (Z.log2 (2 ^ k + 2 ^ (k - 1)) = k)
      by (apply log2_between; lia).
    assert (EH : H' = 2 ^ (k - 1)) by (rewrite HH'; f_equal; lia).
    rewrite EH.
    destruct (Z.eqb_spec (2 ^ k + 2 ^ (k - 1)) (2 * 2 ^ (k - 1))); [lia|].
    destruct (Z.leb_spec (2 ^ k + 2 ^ (k - 1)) (3 * 2 ^ (k - 1))); lia.
Qed.

Lemma preferredSize_spec_is_class (r : Z) : is_size_class (preferredSize_spec r).
Proof.
  destruct (Z_lt_le_dec r 8) as [Hs|Hb].
  - rewrite preferredSize_spec_small by exact Hs.
    exists 3. split; [lia | left; reflexivity].
  - destruct (preferredSize_spec_classes r Hb)
      as (k & H & Hk & HH & H4 & Hr & _ & ->).
    assert (E2 : 2 * H = 2 ^ (k + 1)) by (rewrite pow2_double by lia; lia).
    assert (E4 : 4 * H = 2 ^ (k + 2)).
    { replace (k + 2) with ((k + 1) + 1) by lia.
      rewrite !pow2_double by lia. lia. }
    destruct (Z.eqb_spec r (2 * H)) as [->|_].
    { exists (k + 1). split; [lia | left; exact E2]. }
    destruct (Z.leb_spec r (3 * H)).
    + exists (k + 1). split; [lia|]. right. rewrite <- E2.
      replace (2 * H / 2) with H by (apply Z.div_unique_exact; lia). lia.
    + exists (k + 2). split; [lia | left; exact E4].
Qed.

Lemma preferredSize_spec_waste (r : Z) :
  8 <= r -> 2 * preferredSize_spec r < 3 * r.
Proof.
  intros Hb.
  destruct (preferredSize_spec_classes r Hb)
    as (k & H & _ & _ & H4 & Hr & _ & ->).
  destruct (Z.eqb_spec r (2 * H)); [lia|].
  destruct (Z.leb_spec r (3 * H)); lia.
Qed.

(** X1: for every size up to [2^63 + 2^62], [getPreferredSize] is the
    stated rounding: 8 below 8; from 8 on, with [lower] the largest power
    of two not above the size, the size itself when it is [lower],
    [lower + lower / 2] when that is not below the size, and twice [lower]
    otherwise. *)
Theorem getPreferredSize_rounding (size : Z) :
  0 <= size <= 3 * 2 ^ 62 ->
  (size < 8 -> MemoryPool.getPreferredSize size = 8) /\
  (8 <= size ->
     let lower := 2 ^ Z.log2 size in
     lower <= size < 2 * lower /\
     MemoryPool.getPreferredSize size =
       (if size =? lower then size
        else if size <=? lower + lower / 2 then lower + lower / 2
             else 2 * lower)).
Proof.
  intros Hr. rewrite getPreferredSize_agrees by exact Hr. split.
  - apply preferredSize_spec_small.
  - intros Hb lower.
    destruct (preferredSize_spec_classes size Hb)
      as (k & H & Hk & HH & H4 & Hs & Hl & ->).
    assert (E : lower = 2 * H).
    { unfold lower. rewrite Hl, pow2_double, <- HH by lia. reflexivity. }
    rewrite E.
    replace (2 * H / 2) with H by (apply Z.div_unique_exact; lia).
    split; [lia|].
    destruct (Z.eqb_spec size (2 * H)); [reflexivity|].
    destruct (Z.leb_spec size (3 * H)); destruct (Z.leb_spec size (2 * H + H));
      lia.
Qed.

Lemma getPreferredSize_rounding_witness :
  MemoryPool.getPreferredSize 5 = 8 /\
  MemoryPool.getPreferredSize 100 = 128.
Proof.
  split.
  - destruct (getPreferredSize_rounding 5 ltac:(lia)) as (Hs & _).
    apply Hs. lia.
  - destruct (getPreferredSize_rounding 100 ltac:(lia)) as (_ & Hb).
    destruct (Hb ltac:(lia)) as (_ & E). rewrite E. vm_compute. reflexivity.
Defined.

(** X2: from 8 bytes on and up to [2^63 + 2^62], the preferred size is at
    least the size and exceeds it by less than half of it. *)
Theorem getPreferredSize_waste (size : Z) :
  8 <= size <= 3 * 2 ^ 62 ->
  size <= MemoryPool.getPreferredSize size /\
  2 * MemoryPool.getPreferredSize size < 3 * size.
Proof.
  intros Hr. rewrite getPreferredSize_agrees by lia. split.
  - apply preferredSize_spec_lower_bound.
  - apply preferredSize_spec_waste. lia.
Qed.

Lemma getPreferredSize_waste_witness :
  1025 <= MemoryPool.getPreferredSize 1025 /\
  2 * MemoryPool.getPreferredSize 1025 < 3 * 1025.
Proof. apply (getPreferredSize_waste 1025). lia. Defined.

(** X3: for every size up to [2^63 + 2^62], the preferred size is a size
    class (a power of two from 8 on, or one and a half times one), and no
    size class that is at least the size is smaller. *)
Theorem getPreferredSize_least_class (size : Z) :
  0 <= size <= 3 * 2 ^ 62 ->
  is_size_class (MemoryPool.getPreferredSize size) /\
  (forall c, is_size_class c -> size <= c ->
             MemoryPool.getPreferredSize size <= c).
Proof.
  intros Hr. rewrite getPreferredSize_agrees by exact Hr. split.
  - apply preferredSize_spec_is_class.
  - intros c Hc Hle. rewrite <- (preferredSize_spec_fixes_classes c Hc).
    apply preferredSize_spec_monotone. exact Hle.
Qed.

Lemma getPreferredSize_least_class_witness :
  is_size_class (MemoryPool.getPreferredSize 100) /\
  MemoryPool.getPreferredSize 100 <= 192.
Proof.
  destruct (getPreferredSize_least_class 100 ltac:(lia)) as (Hc & Hleast).
  split; [exact Hc|]. apply Hleast; [|lia].
  exists 7. split; [lia | right; reflexivity].
Defined.

(** X4: up to [2^63 + 2^62], a size is its own preferred size exactly when
    it is a size class. *)
Theorem getPreferredSize_fixed_points (size : Z) :
  0 <= size <= 3 * 2 ^ 62 ->
  MemoryPool.getPreferredSize size = size <-> is_size_class size.
Proof.
  intros Hr. rewrite getPreferredSize_agrees by exact Hr. split.
  - intros E. rewrite <- E. apply preferredSize_spec_is_class.
  - apply preferredSize_spec_fixes_classes.
Qed.

Lemma getPreferredSize_fixed_points_witness :
  MemoryPool.getPreferredSize 24 = 24 <-> is_size_class 24.
Proof. apply (getPreferredSize_fixed_points 24). lia. Defined.

(** X5: below the wrap, rounding is idempotent and keeps the order of the
    requests: for sizes [a <= b] up to [2^63 + 2^62], the preferred size of
    [a] is not above that of [b], and rounding a preferred size gives it
    back. *)
Theorem getPreferredSize_laws_below_wrap (a b : Z) :
  0 <= a -> a <= b -> b <= 3 * 2 ^ 62 ->
  MemoryPool.getPreferredSize a <= MemoryPool.getPreferredSize b /\
  MemoryPool.getPreferredSize (MemoryPool.getPreferredSize a)
  = MemoryPool.getPreferredSize a.
Proof.
  intros Ha Hab Hb. split.
  - apply getPreferredSize_monotone_below_wrap; assumption.
  - apply getPreferredSize_idempotent_below_wrap. lia.
Qed.

Lemma getPreferredSize_laws_below_wrap_witness :
  MemoryPool.getPreferredSize 9 <= MemoryPool.getPreferredSize 13 /\
  MemoryPool.getPreferredSize (MemoryPool.getPreferredSize 9)
  = MemoryPool.getPreferredSize 9.
Proof. apply (getPreferredSize_laws_below_wrap 9 13); lia. Defined.

(** X6: on 64-bit sizes, [getPreferredSize] returns [0] exactly for the
    sizes above [2^63 + 2^62], where twice [lower] does not fit; everywhere
    else the result is at least 8. *)
Theorem getPreferredSize_zero_iff_wrap (size : Z) :
  0 <= size < 2 ^ 64 ->
  (MemoryPool.getPreferredSize size = 0 <-> 3 * 2 ^ 62 < size) /\
  (size <= 3 * 2 ^ 62 -> 8 <= MemoryPool.getPreferredSize size).
Proof.
  intros Hr.
  assert (Hlow : size <= 3 * 2 ^ 62 -> 8 <= MemoryPool.getPreferredSize size).
  { intros Hle. rewrite getPreferredSize_agrees by lia.
    apply preferredSize_spec_at_least_8. }
  split; [|exact Hlow]. split.
  - intros E. destruct (Z_lt_le_dec (3 * 2 ^ 62) size) as [?|Hle];
      [assumption|]. specialize (Hlow Hle). lia.
  - intros Hgt. apply getPreferredSize_wraps. lia.
Qed.

Lemma getPreferredSize_zero_iff_wrap_witness :
  MemoryPool.getPreferredSize (2 ^ 64 - 5) = 0 /\
  8 <= MemoryPool.getPreferredSize 0.
Proof.
  split.
  - destruct (getPreferredSize_zero_iff_wrap (2 ^ 64 - 5) ltac:(lia))
      as (Hz & _).
    apply Hz. lia.
  - destruct (getPreferredSize_zero_iff_wrap 0 ltac:(lia)) as (_ & Hl).
    apply Hl. lia.
Defined.

(** ** More on the allocators *)

Lemma mmap_realloc_moves (p size newSize q : Z) (rest : list Z) (w : World) :
  in_int64 size -> in_int64 newSize ->
  p <> nullptr -> q <> nullptr -> replies w = q :: rest ->
  exists w',
    MmapMemoryAllocator.realloc p size newSize w = Returned q w' /\
    calls w' = calls w ++ [allocateBytes_call newSize q; freeBytes_call p size] /\
    replies w' = rest /\
    (forall i, 0 <= i < Z.min size newSize ->
               memory w' (q + i) = memory w (p + i)) /\
    (forall a, ~ q <= a < q + wrap64 (Z.min size newSize) ->
               memory w' a = memory w a).
Proof.
  intros Hs Hn Hp Hq Hw. run. unfold next_reply, answered. rewrite Hw. cbn.
  destruct (Z.eqb_spec p 0) as [?|_]; [contradiction|].
  destruct (Z.eqb_spec q 0) as [?|_]; [contradiction|].
  cbn [orb]. eexists. split; [reflexivity|].
  split; [cbn; rewrite <- app_assoc; reflexivity|].
  split; [reflexivity|]. split.
  - intros i Hi.
    assert (Hm : in_int64 (Z.min size newSize)) by (apply min_int64; assumption).
    unfold in_int64 in Hm. rewrite wrap64_small by lia.
    inside_range. f_equal. lia.
  - intros a Ha. outside_range.
Qed.

(** X7: two [realloc]s in a row on the mapped variant, both allocations
    succeeding: the final block starts with the first
    [min(size, n1, n2)] bytes of the original block, and each block that is
    given up is freed once, with the size it was allocated or last grown
    to. *)
Theorem mmap_realloc_twice (p size n1 n2 q1 q2 : Z) (rest : list Z)
  (w : World) :
  in_int64 size -> in_int64 n1 -> in_int64 n2 ->
  p <> nullptr -> q1 <> nullptr -> q2 <> nullptr ->
  replies w = q1 :: q2 :: rest ->
  exists w2,
    (r1 <- MmapMemoryAllocator.realloc p size n1 ;;
     MmapMemoryAllocator.realloc r1 n1 n2) w = Returned q2 w2 /\
    calls w2 = calls w ++ [allocateBytes_call n1 q1; freeBytes_call p size;
                           allocateBytes_call n2 q2; freeBytes_call q1 n1] /\
    (forall i, 0 <= i < Z.min size (Z.min n1 n2) ->
               memory w2 (q2 + i) = memory w (p + i)).
Proof.
  intros Hs H1 H2 Hp Hq1 Hq2 Hw.
  destruct (mmap_realloc_moves p size n1 q1 (q2 :: rest) w Hs H1 Hp Hq1 Hw)
    as (w1 & Hr1 & Hc1 & Hrep1 & Hcopy1 & _).
  destruct (mmap_realloc_moves q1 n1 n2 q2 rest w1 H1 H2 Hq1 Hq2 Hrep1)
    as (w2 & Hr2 & Hc2 & _ & Hcopy2 & _).
  exists w2. unfold bind at 1. rewrite Hr1, Hr2.
  split; [reflexivity|]. split.
  - rewrite Hc2, Hc1, <- app_assoc. reflexivity.
  - intros i Hi. rewrite Hcopy2 by lia. apply Hcopy1. lia.
Qed.

Lemma mmap_realloc_twice_witness :
  exists w2,
    (r1 <- MmapMemoryAllocator.realloc 100 4 8 ;;
     MmapMemoryAllocator.realloc r1 8 6) (sample_world [200; 300])
    = Returned 300 w2 /\
    calls w2 = [allocateBytes_call 8 200; freeBytes_call 100 4;
                allocateBytes_call 6 300; freeBytes_call 200 8] /\
    memory w2 303 = memory (sample_world [200; 300]) 103.
Proof.
  assert (H4 : in_int64 4) by (unfold in_int64; lia).
  assert (H8 : in_int64 8) by (unfold in_int64; lia).
  assert (H6 : in_int64 6) by (unfold in_int64; lia).
  destruct (mmap_realloc_twice 100 4 8 6 200 300 [] (sample_world [200; 300])
              H4 H8 H6)
    as (w2 & Hr & Hc & Hcopy); try (unfold nullptr; lia); [reflexivity|].
  exists w2. split; [exact Hr|]. split; [exact Hc|].
  apply (Hcopy 3). lia.
Defined.

(** X8: [allocZeroFilled] on the mapped variant with no members or with
    members of no size asks the manager for 0 bytes, returns what the
    manager answers, and writes no byte at all. *)
Theorem mmap_allocZeroFilled_nothing (numMembers sizeEach : Z) (w : World) :
  numMembers * sizeEach = 0 ->
  exists w',
    MmapMemoryAllocator.allocZeroFilled numMembers sizeEach w
    = Returned (next_reply w) w' /\
    calls w' = calls w ++ [allocateBytes_call 0 (next_reply w)] /\
    (forall a, memory w' a = memory w a).
Proof.
  intros Hz. run. rewrite Hz. change (wrap_int64 0) with 0.
  change (wrap64 0) with 0.
  destruct (Z.eqb_spec (next_reply w) 0) as [E|E]; cbn.
  - eexists. split; [reflexivity|]. split; reflexivity.
  - eexists. split; [reflexivity|]. split; [reflexivity|].
    intros a. outside_range.
Qed.

Lemma mmap_allocZeroFilled_nothing_witness :
  exists w',
    MmapMemoryAllocator.allocZeroFilled 0 16 (sample_world [200])
    = Returned 200 w' /\
    memory w' 200 = memory (sample_world [200]) 200.
Proof.
  destruct (mmap_allocZeroFilled_nothing 0 16 (sample_world [200]) eq_refl)
    as (w' & Hr & _ & Hm).
  exists w'. split; [exact Hr | apply Hm].
Defined.

(** X9: [alloc] followed by [free] of its result with the same size, on
    the mapped variant: a block that was obtained goes back to the manager
    in one [freeBytes] with that pointer and size; the null of a failed
    allocation never reaches the manager.  No byte changes either way. *)
Theorem mmap_alloc_free (size : Z) (w : World) :
  exists w',
    (q <- MmapMemoryAllocator.alloc size ;; MmapMemoryAllocator.free q size) w
    = Returned tt w' /\
    memory w' = memory w /\
    (next_reply w = nullptr ->
       calls w' = calls w ++ [allocateBytes_call size nullptr]) /\
    (next_reply w <> nullptr ->
       calls w' = calls w ++ [allocateBytes_call size (next_reply w);
                              freeBytes_call (next_reply w) size]).
Proof.
  run. destruct (Z.eqb_spec (next_reply w) 0) as [E|E]; cbn.
  - eexists. split; [reflexivity|]. split; [reflexivity|]. split.
    + intros _. rewrite E. reflexivity.
    + intros Hn. contradiction.
  - eexists. split; [reflexivity|]. split; [reflexivity|]. split.
    + intros Hn. contradiction.
    + intros _. cbn. rewrite <- app_assoc. reflexivity.
Qed.

Lemma mmap_alloc_free_witness :
  exists w',
    (q <- MmapMemoryAllocator.alloc 32 ;; MmapMemoryAllocator.free q 32)
      (sample_world []) = Returned tt w' /\
    calls w' = [allocateBytes_call 32 nullptr].
Proof.
  destruct (mmap_alloc_free 32 (sample_world [])) as (w' & Hr & _ & Hnull & _).
  exists w'. split; [exact Hr|]. apply Hnull. reflexivity.
Defined.

(** X10: a new size of zero.  The mapped variant's [realloc] still asks
    for a block and, given one, frees the old block and copies no byte;
    the heap variant's [reallocAligned] asks for nothing and frees
    nothing: the old block stays allocated. *)
Theorem realloc_to_zero (p alignment size q : Z) (rest : list Z) (w : World) :
  in_int64 size -> p <> nullptr -> q <> nullptr -> replies w = q :: rest ->
  (exists w',
     MmapMemoryAllocator.realloc p size 0 w = Returned q w' /\
     calls w' = calls w ++ [allocateBytes_call 0 q; freeBytes_call p size] /\
     (0 <= size -> forall a, memory w' a = memory w a)) /\
  MemoryAllocator.reallocAligned p alignment size 0 w = Returned nullptr w.
Proof.
  intros Hs Hp Hq Hw. split; [|reflexivity].
  assert (H0 : in_int64 0) by (unfold in_int64; lia).
  destruct (mmap_realloc_moves p size 0 q rest w Hs H0 Hp Hq Hw)
    as (w' & Hr & Hc & _ & _ & Hframe).
  exists w'. split; [exact Hr|]. split; [exact Hc|].
  intros Hpos a. apply Hframe.
  rewrite Z.min_r by lia. change (wrap64 0) with 0. lia.
Qed.

Lemma realloc_to_zero_witness :
  (exists w',
     MmapMemoryAllocator.realloc 100 4 0 (sample_world [200]) = Returned 200 w' /\
     calls w' = [allocateBytes_call 0 200; freeBytes_call 100 4]) /\
  MemoryAllocator.reallocAligned 100 16 4 0 (sample_world [200])
  = Returned nullptr (sample_world [200]).
Proof.
  assert (H4 : in_int64 4) by (unfold in_int64; lia).
  destruct (realloc_to_zero 100 16 4 200 [] (sample_world [200]) H4)
    as ((w' & Hr & Hc & _) & Hheap); try (unfold nullptr; lia);
    [reflexivity|].
  split; [|exact Hheap]. exists w'. split; [exact Hr | exact Hc].
Defined.

(** ** More on the pool tree *)

Lemma for_each_app {S : Type} (visitor : positive -> M S unit)
  (l1 l2 : list positive) (s : S) :
  MemoryPool.for_each visitor (l1 ++ l2) s
  = (MemoryPool.for_each visitor l1 ;; MemoryPool.for_each visitor l2) s.
Proof.
  revert s. induction l1 as [|c l1 IH]; intros s; [reflexivity|].
  cbn [app MemoryPool.for_each]. unfold bind.
  destruct (visitor c s) as [[] s'| |]; [|reflexivity|reflexivity].
  rewrite IH. reflexivity.
Qed.

Lemma for_each_note (l seen : list positive) :
  MemoryPool.for_each note_child l seen = Returned tt (seen ++ l).
Proof.
  revert seen. induction l as [|c l IH]; intros seen; cbn.
  - rewrite app_nil_r. reflexivity.
  - unfold bind, note_child, modify. rewrite IH, <- app_assoc. reflexivity.
Qed.

(** The shape of the store after the destructor of a childless pool. *)
Lemma destroy_leaf_shape (h : gmap positive MemoryPool.t) (this : positive)
  (self : MemoryPool.t) :
  registered h -> h !! this = Some self -> MemoryPool.children_ self = [] ->
  match MemoryPool.parent_ self with
  | None => MemoryPool.destroy this h = Returned tt (delete this h)
  | Some q =>
      exists qpool l1 l2,
        h !! q = Some qpool /\
        MemoryPool.children_ qpool = l1 ++ this :: l2 /\ (this ∉ l1) /\
        q <> this /\
        MemoryPool.destroy this h
        = Returned tt
            (delete this (<[q := MemoryPool.set_children (l1 ++ l2) qpool]> h))
  end.
Proof.
  intros Hreg Hself He.
  destruct (MemoryPool.parent_ self) as [q|] eqn:Hq.
  - destruct (Hreg this self q Hself Hq) as (qpool & Hqp & Hin).
    destruct (list_elem_of_split_l _ _ Hin) as (l1 & l2 & Hs & Hn).
    exists qpool, l1, l2. repeat split; try assumption.
    + intros ->. rewrite Hself in Hqp. injection Hqp as <-.
      rewrite He in Hin. inversion Hin.
    + apply (destroy_child h this self Hself q qpool l1 l2); assumption.
  - apply (destroy_root h this self Hself He Hq).
Qed.

Lemma destroy_returns_leaf (h h' : gmap positive MemoryPool.t)
  (this : positive) (self : MemoryPool.t) :
  h !! this = Some self -> MemoryPool.destroy this h = Returned tt h' ->
  MemoryPool.children_ self = [].
Proof.
  intros Hself Hrun.
  destruct (decide (MemoryPool.children_ self = [])) as [He|Hne];
    [exact He|].
  rewrite (destroy_with_children h this self Hself Hne) in Hrun.
  discriminate.
Qed.

Lemma tree_ok_sample_pools (capped : bool) : tree_ok (sample_pools capped).
Proof.
  split; [apply registered_sample_pools|]. split.
  - intros p pool c Hp Hin. unfold sample_pools in Hp.
    apply lookup_singleton_Some in Hp as [_ <-]. inversion Hin.
  - intros p pool Hp. unfold sample_pools in Hp.
    apply lookup_singleton_Some in Hp as [_ <-]. constructor.
Qed.

Lemma tree_ok_addChild (h h' : gmap positive MemoryPool.t)
  (this child : positive) (self : MemoryPool.t) (name : string) (cap : Z) :
  tree_ok h -> h !! this = Some self ->
  MemoryPool.addChild this name cap h = Returned child h' ->
  tree_ok h'.
Proof.
  intros (Hreg & Hlink & Hdist) Hself Hrun.
  split; [eapply registered_addChild; eassumption|].
  destruct (name_free_dec h self name) as [Ef|Ef].
  2:{ rewrite (addChild_collision h this self Hself name cap Ef) in Hrun.
      discriminate. }
  rewrite (addChild_fresh h this self Hself name cap Ef) in Hrun.
  injection Hrun as <- <-.
  pose proof (fresh_not_this h this self Hself) as Hne.
  pose proof (fresh_not_live h) as Hfresh.
  set (child := fresh (dom h)) in *.
  assert (Hlive : forall p pool c, h !! p = Some pool ->
                    c ∈ MemoryPool.children_ pool -> c <> child).
  { intros p pool c Hp Hin ->.
    destruct (Hlink p pool child Hp Hin) as (cp & Hcp & _). congruence. }
  assert (Hback : forall p c cp, h !! c = Some cp ->
            MemoryPool.parent_ cp = Some p ->
            exists cp',
              <[this := MemoryPool.set_children
                          (MemoryPool.children_ self ++ [child]) self]>
                (<[child := new_child this self name cap]> h) !! c = Some cp'
              /\ MemoryPool.parent_ cp' = Some p).
  { intros p c cp Hc Hp. destruct (decide (c = this)) as [->|Hct].
    - rewrite Hself in Hc. injection Hc as <-.
      eexists. split; [apply lookup_insert_eq | exact Hp].
    - assert (c <> child) by (intros ->; congruence).
      exists cp. split; [|exact Hp].
      rewrite !lookup_insert_ne by congruence. exact Hc. }
  split.
  - intros p pool c Hp Hin.
    destruct (decide (p = this)) as [->|Hpt].
    + rewrite lookup_insert_eq in Hp. injection Hp as <-. cbn in Hin.
      apply elem_of_app in Hin as [Hin|Hin].
      * destruct (Hlink this self c Hself Hin) as (cp & Hcp & Hpar).
        eapply Hback; eassumption.
      * apply list_elem_of_singleton in Hin as ->.
        eexists. split.
        -- rewrite lookup_insert_ne by congruence. apply lookup_insert_eq.
        -- reflexivity.
    + rewrite lookup_insert_ne in Hp by congruence.
      destruct (decide (p = child)) as [->|Hpc].
      * rewrite lookup_insert_eq in Hp. injection Hp as <-. inversion Hin.
      * rewrite lookup_insert_ne in Hp by congruence.
        destruct (Hlink p pool c Hp Hin) as (cp & Hcp & Hpar).
        eapply Hback; eassumption.
  - intros p pool Hp.
    destruct (decide (p = this)) as [->|Hpt].
    + rewrite lookup_insert_eq in Hp. injection Hp as <-. cbn.
      apply NoDup_app. split; [exact (Hdist this self Hself)|]. split.
      * intros x Hx Hx'. apply list_elem_of_singleton in Hx' as ->.
        exact (Hlive this self child Hself Hx eq_refl).
      * apply NoDup_singleton.
    + rewrite lookup_insert_ne in Hp by congruence.
      destruct (decide (p = child)) as [->|Hpc].
      * rewrite lookup_insert_eq in Hp. injection Hp as <-. constructor.
      * rewrite lookup_insert_ne in Hp by congruence.
        exact (Hdist p pool Hp).
Qed.

Lemma tree_ok_destroy (h h' : gmap positive MemoryPool.t)
  (this : positive) (self : MemoryPool.t) :
  tree_ok h -> h !! this = Some self ->
  MemoryPool.destroy this h = Returned tt h' ->
  tree_ok h' /\
  (forall p pool, h' !! p = Some pool -> this ∉ MemoryPool.children_ pool).
Proof.
  intros (Hreg & Hlink & Hdist) Hself Hrun.
  pose proof (destroy_returns_leaf h h' this self Hself Hrun) as He.
  pose proof (destroy_leaf_shape h this self Hreg Hself He) as Hshape.
  assert (Hlists : forall p pool, h' !! p = Some pool ->
            p <> this /\
            (this ∉ MemoryPool.children_ pool) /\
            exists pool0, h !! p = Some pool0 /\
              MemoryPool.parent_ pool = MemoryPool.parent_ pool0 /\
              NoDup (MemoryPool.children_ pool) /\
              forall c, c ∈ MemoryPool.children_ pool ->
                        c ∈ MemoryPool.children_ pool0).
  { destruct (MemoryPool.parent_ self) as [q|] eqn:Hq.
    - destruct Hshape as (qpool & l1 & l2 & Hqp & Hs & Hn & Hqt & Hd).
      rewrite Hd in Hrun. injection Hrun as <-.
      pose proof (Hdist q qpool Hqp) as Hnd. rewrite Hs in Hnd.
      apply NoDup_app in Hnd as (Hnd1 & Hsep & Hnd2).
      apply NoDup_cons in Hnd2 as (Hn2 & Hnd2).
      intros p pool Hp. apply lookup_delete_Some in Hp as [Hpt Hp].
      split; [congruence|].
      destruct (decide (p = q)) as [->|Hpq].
      + rewrite lookup_insert_eq in Hp. injection Hp as <-. cbn. split.
        * intros Hin. apply elem_of_app in Hin as [?|?]; contradiction.
        * exists qpool. split; [exact Hqp|]. split; [reflexivity|]. split.
          -- apply NoDup_app. split; [exact Hnd1|]. split; [|exact Hnd2].
             intros x Hx Hx2. apply (Hsep x Hx). right. exact Hx2.
          -- intros c Hc. rewrite Hs. apply elem_of_app in Hc as [?|?].
             ++ apply elem_of_app. left. assumption.
             ++ apply elem_of_app. right. right. assumption.
      + rewrite lookup_insert_ne in Hp by congruence. split.
        * intros Hin. destruct (Hlink p pool this Hp Hin) as (cp & Hcp & Hpar).
          rewrite Hself in Hcp. injection Hcp as <-. congruence.
        * exists pool. split; [exact Hp|]. split; [reflexivity|].
          split; [exact (Hdist p pool Hp) | auto].
    - rewrite Hshape in Hrun. injection Hrun as <-.
      intros p pool Hp. apply lookup_delete_Some in Hp as [Hpt Hp].
      split; [congruence|]. split.
      + intros Hin. destruct (Hlink p pool this Hp Hin) as (cp & Hcp & Hpar).
        rewrite Hself in Hcp. injection Hcp as <-. congruence.
      + exists pool. split; [exact Hp|]. split; [reflexivity|].
        split; [exact (Hdist p pool Hp) | auto]. }
  split; [|intros p pool Hp; apply (Hlists p pool Hp)].
  split; [eapply registered_destroy; eassumption|]. split.
  - intros p pool c Hp Hin.
    destruct (Hlists p pool Hp) as (Hpt & Hnot & pool0 & Hp0 & _ & _ & Hsub).
    destruct (Hlink p pool0 c Hp0 (Hsub c Hin)) as (cp & Hcp & Hpar).
    assert (Hct : c <> this) by (intros ->; contradiction).
    assert (Hkeep : exists cp', h' !! c = Some cp' /\
                      MemoryPool.parent_ cp' = MemoryPool.parent_ cp).
    { destruct (MemoryPool.parent_ self) as [q|] eqn:Hq.
      - destruct Hshape as (qpool & l1 & l2 & Hqp & _ & _ & _ & Hd).
        rewrite Hd in Hrun. injection Hrun as <-.
        rewrite lookup_delete_ne by congruence.
        destruct (decide (c = q)) as [->|Hcq].
        + rewrite lookup_insert_eq. eexists. split; [reflexivity|].
          cbn. congruence.
        + rewrite lookup_insert_ne by congruence. eauto.
      - rewrite Hshape in Hrun. injection Hrun as <-.
        rewrite lookup_delete_ne by congruence. eauto. }
    destruct Hkeep as (cp' & Hcp' & Hpar').
    exists cp'. split; [exact Hcp' | congruence].
  - intros p pool Hp.
    destruct (Hlists p pool Hp) as (_ & _ & _ & _ & _ & Hnd & _). exact Hnd.
Qed.

Lemma destroy_returned_shape (h h' : gmap positive MemoryPool.t)
  (this : positive) (self : MemoryPool.t) :
  h !! this = Some self -> MemoryPool.destroy this h = Returned tt h' ->
  MemoryPool.children_ self = [] /\
  match MemoryPool.parent_ self with
  | None => h' = delete this h
  | Some q =>
      exists qpool l1 l2,
        h !! q = Some qpool /\
        MemoryPool.children_ qpool = l1 ++ this :: l2 /\ (this ∉ l1) /\
        h' = delete this (<[q := MemoryPool.set_children (l1 ++ l2) qpool]> h)
  end.
Proof.
  intros Hself Hrun.
  pose proof (destroy_returns_leaf h h' this self Hself Hrun) as He.
  split; [exact He|].
  destruct (MemoryPool.parent_ self) as [q|] eqn:Hq.
  - destruct (h !! q) as [qpool|] eqn:Hqp.
    + destruct (decide (this ∈ MemoryPool.children_ qpool)) as [Hin|Hnot].
      * destruct (list_elem_of_split_l _ _ Hin) as (l1 & l2 & Hs & Hn).
        rewrite (destroy_child h this self Hself q qpool l1 l2 He Hq Hqp Hs Hn)
          in Hrun.
        injection Hrun as <-. exists qpool, l1, l2. auto.
      * unfold MemoryPool.destroy, bind in Hrun.
        rewrite (member_live h this self Hself) in Hrun.
        rewrite bool_decide_eq_true_2 in Hrun by exact He. cbn in Hrun.
        rewrite (member_live h this self Hself), Hq in Hrun.
        rewrite (dropChild_absent h q qpool Hqp this Hnot) in Hrun.
        discriminate.
    + unfold MemoryPool.destroy, bind in Hrun.
      rewrite (member_live h this self Hself) in Hrun.
      rewrite bool_decide_eq_true_2 in Hrun by exact He. cbn in Hrun.
      rewrite (member_live h this self Hself), Hq in Hrun.
      unfold MemoryPool.dropChild, bind, MemoryPool.member in Hrun.
      rewrite Hqp in Hrun. discriminate.
  - rewrite (destroy_root h this self Hself He Hq) in Hrun.
    injection Hrun as <-. reflexivity.
Qed.

(** X11: [visitChildren] shows the visitor every child of the pool once,
    in the order of the child list, and the number of children shown is
    what [getChildCount] returns. *)
Theorem visitChildren_in_order (h : gmap positive MemoryPool.t)
  (this : positive) (self : MemoryPool.t) (seen : list positive) :
  h !! this = Some self ->
  MemoryPool.visitChildren this note_child h seen
  = Returned tt (seen ++ MemoryPool.children_ self) /\
  MemoryPool.getChildCount this h
  = Returned (Z.of_nat (length (MemoryPool.children_ self))) h.
Proof.
  intros Hself. split.
  - unfold MemoryPool.visitChildren. rewrite Hself. apply for_each_note.
  - apply (member_live h this self Hself).
Qed.

Lemma visitChildren_in_order_witness :
  MemoryPool.visitChildren 1%positive note_child (sample_family false) []
  = Returned tt [2%positive] /\
  MemoryPool.getChildCount 1%positive (sample_family false)
  = Returned 1 (sample_family false).
Proof.
  assert (H1 : sample_family false !! 1%positive
               = Some (MemoryPool.set_children [2%positive] (sample_root false)))
    by (vm_compute; reflexivity).
  exact (visitChildren_in_order _ _ _ [] H1).
Defined.

(** X12: a failure raised by the visitor ends [visitChildren] at once: the
    failure comes out with the state the visitor left, and the children
    after the failing one are not shown. *)
Theorem visitChildren_stops_at_failure {S : Type}
  (h : gmap positive MemoryPool.t) (this : positive) (self : MemoryPool.t)
  (visitor : positive -> M S unit) (l1 l2 : list positive) (c : positive)
  (s s1 s2 : S) (e : failure) :
  h !! this = Some self ->
  MemoryPool.children_ self = l1 ++ c :: l2 ->
  MemoryPool.for_each visitor l1 s = Returned tt s1 ->
  visitor c s1 = Raised e s2 ->
  MemoryPool.visitChildren this visitor h s = Raised e s2.
Proof.
  intros Hself Hs H1 Hc. unfold MemoryPool.visitChildren.
  rewrite Hself, Hs, for_each_app. unfold bind at 1. rewrite H1.
  cbn [MemoryPool.for_each]. unfold bind. rewrite Hc. reflexivity.
Qed.

Lemma visitChildren_stops_at_failure_witness :
  MemoryPool.visitChildren 1%positive
    (fun child => note_child child ;;
                  raise (InvariantViolation "visitor gives up"))
    (sample_family false) []
  = Raised (InvariantViolation "visitor gives up") [2%positive].
Proof.
  assert (H1 : sample_family false !! 1%positive
               = Some (MemoryPool.set_children [2%positive] (sample_root false)))
    by (vm_compute; reflexivity).
  apply (visitChildren_stops_at_failure _ _ _ _ [] [] 2%positive [] [] _ _ H1);
    reflexivity.
Defined.

(** X13: children are visited in the order of their creation: after an
    [addChild] that returned, visiting the pool is visiting it as before
    and then the new child. *)
Theorem visitChildren_after_addChild {S : Type}
  (h : gmap positive MemoryPool.t) (this : positive) (self : MemoryPool.t)
  (name : string) (cap : Z) (visitor : positive -> M S unit) (s : S) :
  h !! this = Some self -> name_free h self name ->
  exists child h1,
    MemoryPool.addChild this name cap h = Returned child h1 /\
    MemoryPool.visitChildren this visitor h1 s
    = (MemoryPool.visitChildren this visitor h ;; visitor child ;; ret tt) s.
Proof.
  intros Hself Hfree. eexists. eexists.
  split; [apply (addChild_fresh h this self Hself name cap Hfree)|].
  unfold MemoryPool.visitChildren. rewrite lookup_insert_eq, Hself. cbn.
  rewrite for_each_app. reflexivity.
Qed.

Lemma visitChildren_after_addChild_witness :
  exists child h1,
    MemoryPool.addChild 1%positive "join" 8 (sample_family false)
    = Returned child h1 /\
    MemoryPool.visitChildren 1%positive note_child h1 []
    = Returned tt [2%positive; child].
Proof.
  assert (H1 : sample_family false !! 1%positive
               = Some (MemoryPool.set_children [2%positive] (sample_root false)))
    by (vm_compute; reflexivity).
  destruct (visitChildren_after_addChild (sample_family false) 1%positive _
              "join" 8 note_child [] H1)
    as (child & h1 & Hrun & Hvisit); [vm_compute; reflexivity|].
  exists child, h1. split; [exact Hrun|]. rewrite Hvisit.
  unfold bind. unfold MemoryPool.visitChildren. rewrite H1. reflexivity.
Defined.

(** X14: [addChild] and the destructor keep the pool tree well formed
    (every pool with a parent is listed by it, every listed child is live
    and points back, no child is listed twice).  In such a tree [addChild]
    with a name no child bears returns and the tree is well formed again;
    the destructor of a childless pool returns, the tree is well formed
    again, and no live pool lists the destroyed pool any more. *)
Theorem tree_ok_preserved (h : gmap positive MemoryPool.t)
  (this : positive) (self : MemoryPool.t) :
  tree_ok h -> h !! this = Some self ->
  (forall name cap, name_free h self name ->
     exists child h',
       MemoryPool.addChild this name cap h = Returned child h' /\
       tree_ok h') /\
  (MemoryPool.children_ self = [] ->
     exists h',
       MemoryPool.destroy this h = Returned tt h' /\
       tree_ok h' /\ h' !! this = None /\
       forall p pool, h' !! p = Some pool ->
                      this ∉ MemoryPool.children_ pool).
Proof.
  intros Hok Hself. split.
  - intros name cap Hfree. eexists. eexists.
    split; [apply (addChild_fresh h this self Hself name cap Hfree)|].
    eapply tree_ok_addChild; [exact Hok | exact Hself |].
    apply (addChild_fresh h this self Hself name cap Hfree).
  - intros He.
    assert (Hrun : exists h', MemoryPool.destroy this h = Returned tt h').
    { pose proof (destroy_leaf_shape h this self (proj1 Hok) Hself He) as Hshape.
      destruct (MemoryPool.parent_ self) as [q|].
      - destruct Hshape as (qpool & l1 & l2 & _ & _ & _ & _ & Hd). eauto.
      - eauto. }
    destruct Hrun as (h' & Hrun). exists h'. split; [exact Hrun|].
    destruct (tree_ok_destroy h h' this self Hok Hself Hrun) as (Hok' & Hno).
    split; [exact Hok'|]. split; [|exact Hno].
    destruct (destroy_returned_shape h h' this self Hself Hrun) as (_ & Hshape).
    destruct (MemoryPool.parent_ self) as [q|].
    + destruct Hshape as (qpool & l1 & l2 & _ & _ & _ & ->).
      apply lookup_delete_eq.
    + rewrite Hshape. apply lookup_delete_eq.
Qed.

Lemma tree_ok_preserved_witness :
  (exists child h',
     MemoryPool.addChild 1%positive "scan" 64 (sample_pools false)
     = Returned child h' /\ tree_ok h') /\
  (exists h',
     MemoryPool.destroy 1%positive (sample_pools false) = Returned tt h' /\
     tree_ok h' /\ h' !! 1%positive = None).
Proof.
  destruct (tree_ok_preserved (sample_pools false) 1%positive
              (sample_root false) (tree_ok_sample_pools false)
              (lookup_singleton_eq _ _)) as (Hadd & Hdel).
  split.
  - apply Hadd. reflexivity.
  - destruct (Hdel eq_refl) as (h' & Hrun & Hok & Hgone & _).
    exists h'. split; [exact Hrun|]. split; [exact Hok | exact Hgone].
Defined.

(** X15: in a well-formed tree, creating a child and destroying it right
    away leaves every pool, the parent's child list included, exactly as
    it was. *)
Theorem addChild_then_destroy (h : gmap positive MemoryPool.t)
  (this : positive) (self : MemoryPool.t) (name : string) (cap : Z) :
  tree_ok h -> h !! this = Some self -> name_free h self name ->
  (child <- MemoryPool.addChild this name cap ;; MemoryPool.destroy child) h
  = Returned tt h.
Proof.
  intros (_ & Hlink & _) Hself Hfree.
  pose proof (fresh_not_this h this self Hself) as Hne.
  pose proof (fresh_not_live h) as Hfresh.
  unfold bind at 1.
  rewrite (addChild_fresh h this self Hself name cap Hfree).
  set (child := fresh (dom h)) in *.
  set (self1 := MemoryPool.set_children
                  (MemoryPool.children_ self ++ [child]) self).
  set (nc := new_child this self name cap).
  assert (Hnot : child ∉ MemoryPool.children_ self).
  { intros Hin. destruct (Hlink this self child Hself Hin) as (cp & Hcp & _).
    congruence. }
  assert (Hc : <[this := self1]> (<[child := nc]> h) !! child = Some nc).
  { rewrite lookup_insert_ne by congruence. apply lookup_insert_eq. }
  rewrite (destroy_child _ child nc Hc this self1
             (MemoryPool.children_ self) [] eq_refl eq_refl
             (lookup_insert_eq _ _ _) eq_refl Hnot).
  f_equal. apply map_eq. intros i.
  destruct (decide (i = child)) as [->|Hic].
  - rewrite lookup_delete_eq. symmetry. exact Hfresh.
  - rewrite lookup_delete_ne by congruence.
    destruct (decide (i = this)) as [->|Hit].
    + rewrite lookup_insert_eq, Hself. f_equal.
      rewrite app_nil_r. destruct self. reflexivity.
    + rewrite !lookup_insert_ne by congruence. reflexivity.
Qed.

Lemma addChild_then_destroy_witness :
  (child <- MemoryPool.addChild 1%positive "join" 8 ;;
   MemoryPool.destroy child) (sample_pools true)
  = Returned tt (sample_pools true).
Proof.
  apply (addChild_then_destroy (sample_pools true) 1%positive
           (sample_root true) "join" 8).
  - apply tree_ok_sample_pools.
  - apply lookup_singleton_eq.
  - reflexivity.
Defined.

(** X16: [addChild] and the destructor touch nothing but the child list
    they are about.  An [addChild] with a name no child bears returns a
    handle that was not live; the pool then differs from before in its
    child list only, which has the new child at its end, and every other
    pool that was live is unchanged.  The destructor of a childless pool,
    in a tree where parents list their children, returns; the parent then
    differs in its child list only and every pool other than the destroyed
    one and its parent is unchanged.  So names, parents and caps of live
    pools never change. *)
Theorem pool_operations_frame (h : gmap positive MemoryPool.t)
  (this : positive) (self : MemoryPool.t) :
  h !! this = Some self ->
  (forall name cap, name_free h self name ->
     exists child h',
       MemoryPool.addChild this name cap h = Returned child h' /\
       h !! child = None /\
       h' !! this = Some (MemoryPool.set_children
                            (MemoryPool.children_ self ++ [child]) self) /\
       forall c, c <> this -> c <> child -> h' !! c = h !! c) /\
  (MemoryPool.children_ self = [] -> registered h ->
     exists h',
       MemoryPool.destroy this h = Returned tt h' /\
       (forall c, c <> this -> MemoryPool.parent_ self <> Some c ->
                  h' !! c = h !! c) /\
       (forall q qpool,
          MemoryPool.parent_ self = Some q -> h !! q = Some qpool ->
          exists l, h' !! q = Some (MemoryPool.set_children l qpool))).
Proof.
  intros Hself. split.
  - intros name cap Hfree. eexists. eexists.
    split; [apply (addChild_fresh h this self Hself name cap Hfree)|].
    split; [apply fresh_not_live|]. split; [apply lookup_insert_eq|].
    intros c Hct Hcc. rewrite !lookup_insert_ne by congruence. reflexivity.
  - intros He Hreg.
    pose proof (destroy_leaf_shape h this self Hreg Hself He) as Hshape.
    destruct (MemoryPool.parent_ self) as [q|] eqn:Hq.
    + destruct Hshape as (qpool & l1 & l2 & Hqp & Hs & Hn & Hqt & Hd).
      eexists. split; [exact Hd|]. split.
      * intros c Hct Hcq. rewrite lookup_delete_ne by congruence.
        rewrite lookup_insert_ne by congruence. reflexivity.
      * intros q' qpool' Hq' Hqp'. injection Hq' as <-.
        rewrite Hqp in Hqp'. injection Hqp' as <-.
        exists (l1 ++ l2). rewrite lookup_delete_ne by congruence.
        apply lookup_insert_eq.
    + eexists. split; [exact Hshape|]. split.
      * intros c Hct _. apply lookup_delete_ne. congruence.
      * intros q qpool Hq'. discriminate.
Qed.

Lemma pool_operations_frame_witness :
  (exists child h',
     MemoryPool.addChild 2%positive "filter" 16 (sample_family true)
     = Returned child h' /\
     h' !! 1%positive = sample_family true !! 1%positive) /\
  (exists h' l,
     MemoryPool.destroy 2%positive (sample_family true) = Returned tt h' /\
     h' !! 1%positive
     = Some (MemoryPool.set_children l
               (MemoryPool.set_children [2%positive] (sample_root true)))).
Proof.
  assert (H1 : sample_family true !! 1%positive
               = Some (MemoryPool.set_children [2%positive] (sample_root true)))
    by (vm_compute; reflexivity).
  assert (H2 : sample_family true !! 2%positive
               = Some (new_child 1%positive (sample_root true) "scan" 64))
    by (vm_compute; reflexivity).
  destruct (pool_operations_frame (sample_family true) 2%positive _ H2)
    as (Hadd & Hdel).
  split.
  - destruct (Hadd "filter" 16 eq_refl) as (child & h' & Hrun & Hfresh & _ & Hframe).
    exists child, h'. split; [exact Hrun|]. apply Hframe; [discriminate|].
    intros <-. rewrite H1 in Hfresh. discriminate.
  - destruct (Hdel eq_refl (registered_sample_family true))
      as (h' & Hrun & _ & Hparent).
    destruct (Hparent 1%positive _ eq_refl H1) as (l & Hl).
    exists h', l. split; assumption.
Defined.

(** X17: teardown goes from the leaves to the root.  Where a pool has one
    child, which has none, destroying the pool first raises the invariant
    violation and changes nothing; destroying the child and then the pool
    returns, and both are gone. *)
Theorem teardown_leaf_to_root (h : gmap positive MemoryPool.t)
  (p c : positive) (pool cp : MemoryPool.t) :
  registered h ->
  h !! p = Some pool -> MemoryPool.children_ pool = [c] ->
  h !! c = Some cp -> MemoryPool.parent_ cp = Some p ->
  MemoryPool.children_ cp = [] ->
  MemoryPool.destroy p h = Raised (InvariantViolation "children_.empty()") h /\
  exists h2,
    (MemoryPool.destroy c ;; MemoryPool.destroy p) h = Returned tt h2 /\
    h2 !! c = None /\ h2 !! p = None.
Proof.
  intros Hreg Hp Hlist Hc Hpar Hleaf. split.
  - apply (destroy_with_children h p pool Hp). rewrite Hlist. discriminate.
  - assert (Hcp : c <> p).
    { intros ->. rewrite Hp in Hc. injection Hc as <-.
      rewrite Hleaf in Hlist. discriminate. }
    pose proof (destroy_child h c cp Hc p pool [] [] Hleaf Hpar Hp Hlist
                  ltac:(intros Hin; inversion Hin)) as Hrun1.
    cbn [app] in Hrun1.
    set (h1 := delete c (<[p := MemoryPool.set_children [] pool]> h)) in *.
    assert (Hreg1 : registered h1)
      by exact (registered_destroy h h1 c cp Hreg Hc Hrun1).
    assert (Hp1 : h1 !! p = Some (MemoryPool.set_children [] pool)).
    { unfold h1. rewrite lookup_delete_ne by congruence.
      apply lookup_insert_eq. }
    assert (Hc1 : h1 !! c = None) by apply lookup_delete_eq.
    pose proof (destroy_leaf_shape h1 p _ Hreg1 Hp1 eq_refl) as Hshape.
    unfold bind. rewrite Hrun1.
    cbn [MemoryPool.parent_ MemoryPool.set_children] in Hshape.
    destruct (MemoryPool.parent_ pool) as [g|].
    + destruct Hshape as (gpool & l1 & l2 & Hg & _ & _ & Hgp & ->).
      eexists. split; [reflexivity|]. split; [|apply lookup_delete_eq].
      rewrite lookup_delete_ne by congruence.
      rewrite lookup_insert_ne by congruence. exact Hc1.
    + rewrite Hshape. eexists. split; [reflexivity|].
      split; [|apply lookup_delete_eq].
      rewrite lookup_delete_ne by congruence. exact Hc1.
Qed.

Lemma teardown_leaf_to_root_witness :
  MemoryPool.destroy 1%positive (sample_family false)
  = Raised (InvariantViolation "children_.empty()") (sample_family false) /\
  exists h2,
    (MemoryPool.destroy 2%positive ;; MemoryPool.destroy 1%positive)
      (sample_family false) = Returned tt h2 /\
    h2 !! 2%positive = None /\ h2 !! 1%positive = None.
Proof.
  apply (teardown_leaf_to_root (sample_family false) 1%positive 2%positive
           (MemoryPool.set_children [2%positive] (sample_root false))
           (new_child 1%positive (sample_root false) "scan" 64)).
  - apply registered_sample_family.
  - vm_compute. reflexivity.
  - reflexivity.
  - vm_compute. reflexivity.
  - reflexivity.
  - reflexivity.
Defined.


(** ** The product in [allocZeroFilled] *)

(** C4, at [numMembers = 2^62 + 1] and [sizeEach = 4], both of them
    [int64_t] values: the product [2^64 + 4] does not fit, [totalBytes] is
    [4], and the mapped variant's [allocZeroFilled] asks the manager for 4
    bytes, zeroes those 4 and returns the block as if it held
    [numMembers * sizeEach] zeroed bytes; the byte right after the first 4
    is as it was, and not zero.  (The heap variant hands the two factors to
    [calloc], which checks the product.) *)
Theorem mmap_allocZeroFilled_product_wraps :
  in_int64 (2 ^ 62 + 1) /\ in_int64 4 /\
  ~ in_int64 ((2 ^ 62 + 1) * 4) /\
  exists w',
    MmapMemoryAllocator.allocZeroFilled (2 ^ 62 + 1) 4 (sample_world [200])
    = Returned 200 w' /\
    calls w' = [allocateBytes_call 4 200] /\
    (forall i, 0 <= i < 4 -> memory w' (200 + i) = x00) /\
    memory w' 204 = memory (sample_world [200]) 204 /\
    memory w' 204 <> x00.
Proof.
  split; [unfold in_int64; lia|]. split; [unfold in_int64; lia|].
  split; [unfold in_int64; lia|].
  run. change (wrap_int64 ((2 ^ 62 + 1) * 4)) with 4.
  change (wrap64 4) with 4. cbn.
  eexists. split; [reflexivity|]. split; [reflexivity|]. split.
  - intros i Hi. inside_range. reflexivity.
  - split; [reflexivity|]. cbn. discriminate.
Qed.
